(** * An authenticated HTTP/HTTPS forward proxy (proxy.js)

    A shallow embedding of [proxy.js]: the credential verifier
    [checkBasicAuth], the destination authorizer [hostAllowed], and the two
    event handlers of the server ([request] and [connect]) as state machines
    that turn the events Node delivers into the calls the handlers make on
    the client and on the upstream side. *)

From Stdlib Require Import String Ascii NArith ZArith Bool Lia.
From stdpp Require Import gmap list.

Local Open Scope N_scope.

(** ** JavaScript strings and buffers

    A JavaScript string is a sequence of UTF-16 code units; a Buffer is a
    sequence of bytes.  Both are lists of [N].  Header values and the request
    target reach the program as Latin-1 strings (code units below 256). *)

Definition code_unit := N.
Definition jsstring := list code_unit.
Definition bytes := list N.

(** A string literal of the source (ASCII: its code units are its bytes). *)
Definition js (s : String.string) : jsstring :=
  map N_of_ascii (list_ascii_of_string s).
Arguments js s%_string.

Definition COLON : code_unit := 58.
Definition CR : code_unit := 13.
Definition LF : code_unit := 10.
Definition DQUOTE : code_unit := 34.

(** [s.split(sep)] for a one-character separator: never empty, one more
    piece than there are separators. *)
Fixpoint split (sep : code_unit) (s : jsstring) : list jsstring :=
  match s with
  | [] => [[]]
  | c :: s' =>
      if c =? sep then [] :: split sep s'
      else match split sep s' with
           | w :: ws => (c :: w) :: ws
           | [] => [[c]]
           end
  end.

(** [x === S] where [x] may be [undefined] ([None]) and [S] is a string. *)
Definition strict_eq (x : option jsstring) (s : jsstring) : bool :=
  match x with
  | Some v => bool_decide (v = s)
  | None => false
  end.

(** ** Regular expressions of the source *)

(** [\s]: WhiteSpace and LineTerminator code units. *)
Definition is_space (c : code_unit) : bool :=
  (9 <=? c) && (c <=? 13) || (c =? 32) || (c =? 160) || (c =? 0x1680)
  || (0x2000 <=? c) && (c <=? 0x200A) || (c =? 0x2028) || (c =? 0x2029)
  || (c =? 0x202F) || (c =? 0x205F) || (c =? 0x3000) || (c =? 0xFEFF).

(** [.]: anything but a line terminator. *)
Definition is_dot (c : code_unit) : bool :=
  negb ((c =? 10) || (c =? 13) || (c =? 0x2028) || (c =? 0x2029)).

(** An ASCII letter of a pattern compared under the [i] flag: [p] is the
    lower-case letter. *)
Definition ci_eq (p c : code_unit) : bool := (c =? p) || (c =? p - 32).

(** A literal lower-case ASCII word matched case-insensitively at the start
    of [s]; the rest of [s] on success. *)
Fixpoint ci_prefix (word s : jsstring) : option jsstring :=
  match word with
  | [] => Some s
  | p :: word' =>
      match s with
      | c :: s' => if ci_eq p c then ci_prefix word' s' else None
      | [] => None
      end
  end.

(** [(.+)$]: the rest of the input, when it is not empty and holds no line
    terminator. *)
Definition capture_rest (s : jsstring) : option jsstring :=
  match s with
  | [] => None
  | _ :: _ => if forallb is_dot s then Some s else None
  end.

(** [\s*(.+)$], the [\s*] greedy: take one more blank when the rest still
    matches, otherwise capture from here. *)
Fixpoint blanks_then_capture (s : jsstring) : option jsstring :=
  match s with
  | c :: s' =>
      if is_space c then
        match blanks_then_capture s' with
        | Some m => Some m
        | None => capture_rest s
        end
      else capture_rest s
  | [] => None
  end.

(** [header.match(/^Basic\s+(.+)$/i)]: the capture group [m[1]], or [None]
    for [null]. *)
Definition match_basic (header : jsstring) : option jsstring :=
  match ci_prefix (js "basic") header with
  | Some (c :: s') => if is_space c then blanks_then_capture s' else None
  | _ => None
  end.

(** [/^https?:\/\//i.test(url)] *)
Definition test_absolute (url : jsstring) : bool :=
  match ci_prefix (js "http") url with
  | Some rest =>
      let rest' := match rest with
                   | c :: r => if ci_eq 115 c then
                                 (* [s?] is greedy; without the [s] the next
                                    character would have to be [:] *)
                                 r
                               else rest
                   | [] => rest
                   end in
      match rest' with
      | 58 :: 47 :: 47 :: _ => true
      | _ => false
      end
  | None => false
  end.

(** ** [Buffer.from(s, 'base64')] and [buf.toString()]

    The two runtime calls of [checkBasicAuth].  Node's base64 decoder is
    lenient: it accepts the standard and the URL-safe alphabet, skips every
    other character (the documentation names whitespace), stops at the first
    [=], and keeps the bytes of a final incomplete group.  It never throws.
    [toString()] decodes UTF-8, replacing ill-formed sequences by U+FFFD. *)

Definition unbase64 (c : code_unit) : option N :=
  if (65 <=? c) && (c <=? 90) then Some (c - 65)
  else if (97 <=? c) && (c <=? 122) then Some (c - 97 + 26)
  else if (48 <=? c) && (c <=? 57) then Some (c - 48 + 52)
  else if (c =? 43) || (c =? 45) then Some 62
  else if (c =? 47) || (c =? 95) then Some 63
  else None.

(** The six-bit values of the legal characters before the first [=]. *)
Fixpoint sextets (s : jsstring) : list N :=
  match s with
  | [] => []
  | c :: s' =>
      if c =? 61 then []
      else match unbase64 c with
           | Some v => v :: sextets s'
           | None => sextets s'
           end
  end.

Fixpoint bytes_of_sextets (l : list N) : bytes :=
  match l with
  | a :: b :: c :: d :: l' =>
      (a * 4 + b / 16) :: ((b mod 16) * 16 + c / 4) :: ((c mod 4) * 64 + d)
      :: bytes_of_sextets l'
  | [a; b; c] => [a * 4 + b / 16; (b mod 16) * 16 + c / 4]
  | [a; b] => [a * 4 + b / 16]
  | _ => []
  end.

Definition Buffer_from_base64 (s : jsstring) : bytes :=
  bytes_of_sextets (sextets s).

(** The UTF-8 decoder: between characters, or inside one with the code point
    so far, the continuation bytes still needed and the range allowed for
    the next byte. *)
Inductive utf8_state :=
  | Utf8Idle
  | Utf8Pending (cp needed lower upper : N).

Definition REPLACEMENT : N := 0xFFFD.

(** A byte read between characters: the next state and the code points
    emitted. *)
Definition utf8_lead (b : N) : utf8_state * list N :=
  if b <=? 0x7F then (Utf8Idle, [b])
  else if (0xC2 <=? b) && (b <=? 0xDF) then
    (Utf8Pending (b mod 32) 1 0x80 0xBF, [])
  else if (0xE0 <=? b) && (b <=? 0xEF) then
    (Utf8Pending (b mod 16) 2 (if b =? 0xE0 then 0xA0 else 0x80)
       (if b =? 0xED then 0x9F else 0xBF), [])
  else if (0xF0 <=? b) && (b <=? 0xF4) then
    (Utf8Pending (b mod 8) 3 (if b =? 0xF0 then 0x90 else 0x80)
       (if b =? 0xF4 then 0x8F else 0xBF), [])
  else (Utf8Idle, [REPLACEMENT]).

Fixpoint utf8_run (st : utf8_state) (bs : bytes) : list N :=
  match bs with
  | [] => match st with
          | Utf8Idle => []
          | Utf8Pending _ _ _ _ => [REPLACEMENT]
          end
  | b :: bs' =>
      match st with
      | Utf8Idle =>
          let '(st', out) := utf8_lead b in out ++ utf8_run st' bs'
      | Utf8Pending cp needed lower upper =>
          if (lower <=? b) && (b <=? upper) then
            let cp' := cp * 64 + b mod 64 in
            if needed =? 1 then cp' :: utf8_run Utf8Idle bs'
            else utf8_run (Utf8Pending cp' (needed - 1) 0x80 0xBF) bs'
          else
            (* the byte is read again as the start of a character *)
            let '(st', out) := utf8_lead b in
            REPLACEMENT :: out ++ utf8_run st' bs'
      end
  end.

(** A code point as UTF-16 code units. *)
Definition utf16 (cp : N) : list code_unit :=
  if cp <? 0x10000 then [cp]
  else [0xD800 + (cp - 0x10000) / 1024; 0xDC00 + (cp - 0x10000) mod 1024].

Definition Buffer_toString (b : bytes) : jsstring :=
  concat (map utf16 (utf8_run Utf8Idle b)).

(** ** Configuration

    The module-level constants read from the environment at start-up. *)
Record ProxyConfig := {
  PROXY_USER : jsstring;
  PROXY_PASS : jsstring;
  WHITELIST : list jsstring
}.

(** ** checkBasicAuth *)

(** What a [try] block does: it completes with a value or throws. *)
Inductive completion (A : Type) :=
  | Return (a : A)
  | Throw (name : String.string).
Arguments Return {A} a.
Arguments Throw {A} name.

Definition try_catch {A} (body : completion A) (handler : String.string -> A) : A :=
  match body with
  | Return a => a
  | Throw e => handler e
  end.

Section Verifier.
Variable cfg : ProxyConfig.

(** The [try] block, lines 24-26. *)
Definition checkBasicAuth_try (m1 : jsstring) : completion bool :=
  let decoded := Buffer_toString (Buffer_from_base64 m1) in
  let parts := split COLON decoded in
  let user := parts !! 0%nat in
  let pass := parts !! 1%nat in
  Return (strict_eq user (PROXY_USER cfg) && strict_eq pass (PROXY_PASS cfg)).

(** [header] is [None] for [undefined]. *)
Definition checkBasicAuth (header : option jsstring) : bool :=
  match header with
  | None | Some [] => false                       (* [!header] *)
  | Some h =>
      match match_basic h with
      | None => false                             (* [!m] *)
      | Some m1 => try_catch (checkBasicAuth_try m1) (fun _ => false)
      end
  end.

(** ** hostAllowed *)
Definition hostAllowed (hostname : jsstring) : bool :=
  match WHITELIST cfg with
  | [] => true
  | _ :: _ =>
      let hostOnly := default [] (split COLON hostname !! 0%nat) in
      bool_decide (hostOnly ∈ WHITELIST cfg)
  end.
End Verifier.

(** ** parseInt(string, 10) and the port of a tunnel *)

(** A JavaScript number, as far as the program can produce one. *)
Inductive number :=
  | NaN
  | Int (z : Z)               (* an integer of magnitude at most 2^53, exact *)
  | Large (negative : bool).  (* beyond 2^53: rounded by the runtime, the
                                 exact value is not modelled *)

Definition is_digit (c : code_unit) : bool := (48 <=? c) && (c <=? 57).

Fixpoint trim_start (s : jsstring) : jsstring :=
  match s with
  | c :: s' => if is_space c then trim_start s' else s
  | [] => []
  end.

Fixpoint take_digits (s : jsstring) : list N :=
  match s with
  | c :: s' => if is_digit c then (c - 48) :: take_digits s' else []
  | [] => []
  end.

Definition digits_value (ds : list N) : N :=
  fold_left (fun acc d => acc * 10 + d) ds 0.

(** An optional sign in front of the digits. *)
Definition skip_sign (S : jsstring) : bool * jsstring :=
  match S with
  | c :: r => if c =? 45 then (true, r) else if c =? 43 then (false, r)
              else (false, S)
  | [] => (false, S)
  end.

(** The digits [parseInt] reads: after leading blanks and one sign, up to the
    first character that is not a decimal digit. *)
Definition leading_digits (s : jsstring) : list N :=
  take_digits (snd (skip_sign (trim_start s))).

(** [parseInt(x, 10)]; [undefined] is first turned into the string
    ["undefined"]. *)
Definition parseInt10 (x : option jsstring) : number :=
  let inputString := match x with Some s => s | None => js "undefined" end in
  let negative := fst (skip_sign (trim_start inputString)) in
  match leading_digits inputString with
  | [] => NaN
  | ds =>
      let v := digits_value ds in
      if v <=? 2 ^ 53
      then Int (if negative then - Z.of_N v else Z.of_N v)
      else Large negative
  end.

(** ToBoolean of a number. *)
Definition truthy (n : number) : bool :=
  match n with
  | NaN => false
  | Int z => negb (z =? 0)%Z
  | Large _ => true
  end.

(** Lines 109-110: [const [host, portStr] = req.url.split(':')] and
    [parseInt(portStr, 10) || 443]. *)
Definition tunnel_host (url : jsstring) : jsstring :=
  default [] (split COLON url !! 0%nat).

Definition tunnel_portStr (url : jsstring) : option jsstring :=
  split COLON url !! 1%nat.

Definition tunnel_port (url : jsstring) : number :=
  let n := parseInt10 (tunnel_portStr url) in
  if truthy n then n else Int 443.

(** [net.connect] validates its port before anything else and throws
    ERR_SOCKET_BAD_PORT outside 0..65535. *)
Definition legal_port (n : number) : option Z :=
  match n with
  | Int z => if ((0 <=? z) && (z <=? 65535))%Z then Some z else None
  | _ => None
  end.

(** ** Requests, headers and the calls the handlers make *)

(** A header value: a string, or an array of strings (Node keeps an array
    for set-cookie only). *)
Inductive header_value :=
  | HStr (s : jsstring)
  | HArr (l : list jsstring).

Abbreviation headers := (gmap jsstring header_value).

Record IncomingMessage := {
  req_method : jsstring;
  req_url : jsstring;
  req_headers : headers
}.

(** [h[name]] for a header that Node stores as one string: of
    proxy-authorization and host the parser keeps the first value only. *)
Definition get_header (h : headers) (name : jsstring) : option jsstring :=
  match h !! name with
  | Some (HStr s) => Some s
  | _ => None
  end.

(** The part of a parsed [url.URL] the program reads, and the text it was
    parsed from. *)
Record URL := {
  href : jsstring;
  protocol : jsstring;
  hostname : jsstring
}.

Inductive action :=
  (* the structured response [res] of the request handler *)
  | res_writeHead (status : Z) (hs : headers)
  | res_write (chunk : bytes)
  | res_end (body : bytes)
  (* the raw client socket of the connect handler *)
  | clientSocket_write (data : bytes)
  | clientSocket_end
  | clientSocket_destroy
  (* the upstream side *)
  | http_request (target : URL) (method : jsstring) (hs : headers)
  | upstream_write (chunk : bytes)
  | upstream_end
  | net_connect (port : Z) (host : jsstring)
  | serverSocket_write (data : bytes)
  | serverSocket_end
  (* diagnostics and failures *)
  | console_error
  | uncaught (name : String.string).

(** The calls that open an upstream connection or send bytes upstream. *)
Definition is_upstream (a : action) : bool :=
  match a with
  | http_request _ _ _ | upstream_write _ | upstream_end
  | net_connect _ _ | serverSocket_write _ | serverSocket_end => true
  | _ => false
  end.

Definition opens_upstream (a : action) : bool :=
  match a with
  | http_request _ _ _ | net_connect _ _ => true
  | _ => false
  end.

Definition CRLF : bytes := [CR; LF].

(** [unauthorized(res)] *)
Definition unauthorized : list action :=
  [ res_writeHead 407
      {[ js "Proxy-Authenticate" :=
           HStr (js "Basic realm=" ++ [DQUOTE] ++ js "Proxy" ++ [DQUOTE]) ]};
    res_end (js "Proxy authentication required") ].

Definition hop_by_hop : list jsstring :=
  [ js "transfer-encoding"; js "connection"; js "keep-alive";
    js "proxy-authenticate"; js "proxy-authorization"; js "te";
    js "trailer"; js "upgrade" ].

(** [names.forEach(h => delete headers[h])] *)
Definition delete_all (names : list jsstring) (hs : headers) : headers :=
  fold_left (fun h k => delete k h) names hs.

(** ** The request handler (HTTP relay) *)

(** What reaches the handler after [http.request]: the callbacks of the
    outgoing request and the chunks moved by the two [pipe] calls. *)
Inductive http_event :=
  | request_data (chunk : bytes)             (* [req.pipe(upstream)] *)
  | request_end
  | upstream_response (statusCode : Z) (hs : headers)
                                             (* the [http.request] callback *)
  | response_data (chunk : bytes)            (* [upstreamRes.pipe(res)] *)
  | response_end
  | upstream_error.                          (* [upstream.on('error')] *)

Inductive http_state :=
  | Awaiting      (* the outgoing request is open, no response head yet *)
  | Streaming     (* the response head went to the client, the body follows *)
  | Responded     (* the response went to the client in full; the request
                     body may still be on its way upstream *)
  | HttpDone.     (* nothing more happens for this request *)

(** The outcome of lines 48-64. *)
Inductive target_result :=
  | Target (u : URL)
  | MissingHost
  | InvalidURL.

Section Relay.
Variable cfg : ProxyConfig.
(** [new url.URL(text)]; [None] when it throws. *)
Variable new_URL : jsstring -> option URL.

Definition resolve_target (req : IncomingMessage) : target_result :=
  if test_absolute (req_url req) then
    match new_URL (req_url req) with
    | Some u => Target u
    | None => InvalidURL
    end
  else
    match get_header (req_headers req) (js "host") with
    | None | Some [] => MissingHost
    | Some hostHeader =>
        match new_URL (js "http://" ++ hostHeader ++ req_url req) with
        | Some u => Target u
        | None => InvalidURL
        end
    end.

(** The headers of the outgoing request, lines 72-79. *)
Definition forwarded_headers (hs : headers) : headers :=
  delete (js "connection")
    (delete (js "proxy-connection")
       (delete (js "proxy-authorization") hs)).

(** The body of [server.on('request', ...)]: the calls it makes and the
    state it leaves the exchange in. *)
Definition on_request (req : IncomingMessage) : list action * http_state :=
  let proxyAuth := get_header (req_headers req) (js "proxy-authorization") in
  if negb (checkBasicAuth cfg proxyAuth) then (unauthorized, HttpDone)
  else
    match resolve_target req with
    | MissingHost =>
        ([res_writeHead 400 ∅;
          res_end (js "Bad Request: missing Host header")], HttpDone)
    | InvalidURL =>
        ([res_writeHead 400 ∅; res_end (js "Bad Request: invalid URL")],
         HttpDone)
    | Target target =>
        if negb (hostAllowed cfg (hostname target)) then
          ([res_writeHead 403 ∅;
            res_end (js "Forbidden: host not allowed by proxy whitelist")],
           HttpDone)
        else if bool_decide (protocol target = js "http:") then
          ([http_request target (req_method req)
              (forwarded_headers (req_headers req))], Awaiting)
        else
          (* [http.request] throws for any protocol but its own, before
             anything is sent; the regular expression of line 50 lets
             https:// through *)
          ([uncaught "ERR_INVALID_PROTOCOL"], HttpDone)
    end.

(** One event.  [None]: the runtime does not deliver this event in this
    state.  [res.writeHead] throws ERR_HTTP_INVALID_STATUS_CODE for a status
    code outside 100..999, and ERR_HTTP_HEADERS_SENT once a head has been
    written, so the error handler fails when the response head has already
    gone to the client.  [req.pipe(upstream)] goes on moving the request
    body after the response has ended. *)
Definition http_step (st : http_state) (e : http_event)
  : option (list action * http_state) :=
  match st, e with
  | (Awaiting | Streaming | Responded), request_data chunk =>
      Some ([upstream_write chunk], st)
  | (Awaiting | Streaming | Responded), request_end =>
      Some ([upstream_end], st)
  | Awaiting, upstream_response statusCode hs =>
      if ((100 <=? statusCode) && (statusCode <=? 999))%Z then
        Some ([res_writeHead statusCode (delete_all hop_by_hop hs)], Streaming)
      else Some ([uncaught "ERR_HTTP_INVALID_STATUS_CODE"], HttpDone)
  | Streaming, response_data chunk => Some ([res_write chunk], Streaming)
  | Streaming, response_end => Some ([res_end []], Responded)
  | Awaiting, upstream_error =>
      Some ([console_error; res_writeHead 502 ∅; res_end (js "Bad Gateway")],
            HttpDone)
  | (Streaming | Responded), upstream_error =>
      Some ([console_error; uncaught "ERR_HTTP_HEADERS_SENT"], HttpDone)
  | _, _ => None
  end.

Fixpoint http_run (st : http_state) (evs : list http_event)
  : option (list action * http_state) :=
  match evs with
  | [] => Some ([], st)
  | e :: evs' =>
      match http_step st e with
      | Some (out, st') =>
          match http_run st' evs' with
          | Some (outs, st'') => Some (out ++ outs, st'')
          | None => None
          end
      | None => None
      end
  end.

(** Everything the proxy does for one request and the events that follow
    it. *)
Definition http_exchange (req : IncomingMessage) (evs : list http_event)
  : option (list action) :=
  let '(out, st) := on_request req in
  match http_run st evs with
  | Some (outs, _) => Some (out ++ outs)
  | None => None
  end.

(** ** The connect handler (tunnel relay) *)

Definition tunnel_407 : bytes :=
  js "HTTP/1.1 407 Proxy Authentication Required" ++ CRLF ++
  js "Proxy-Authenticate: Basic realm=" ++ [DQUOTE] ++ js "Proxy" ++ [DQUOTE]
  ++ CRLF ++ CRLF.
Definition tunnel_403 : bytes := js "HTTP/1.1 403 Forbidden" ++ CRLF ++ CRLF.
Definition tunnel_200 : bytes :=
  js "HTTP/1.1 200 Connection Established" ++ CRLF ++ CRLF.
Definition tunnel_502 : bytes := js "HTTP/1.1 502 Bad Gateway" ++ CRLF ++ CRLF.

Inductive tunnel_event :=
  | connected                         (* the [net.connect] callback *)
  | serverSocket_error                (* [serverSocket.on('error')] *)
  | client_data (chunk : bytes)       (* [clientSocket.pipe(serverSocket)] *)
  | client_end
  | server_data (chunk : bytes)       (* [serverSocket.pipe(clientSocket)] *)
  | server_end.

Inductive tunnel_state :=
  | Connecting (head : bytes)
  | Relaying (client_open : bool)
      (* the upstream socket is open; has the client ended its side? *)
  | Closed.

(** The body of [server.on('connect', ...)]; [head] is the third argument. *)
Definition on_connect (req : IncomingMessage) (head : bytes)
  : list action * tunnel_state :=
  let proxyAuth := get_header (req_headers req) (js "proxy-authorization") in
  if negb (checkBasicAuth cfg proxyAuth) then
    ([clientSocket_write tunnel_407; clientSocket_destroy], Closed)
  else
    let host := tunnel_host (req_url req) in
    let port := tunnel_port (req_url req) in
    if negb (hostAllowed cfg host) then
      ([clientSocket_write tunnel_403; clientSocket_destroy], Closed)
    else
      match legal_port port with
      | Some p => ([net_connect p host], Connecting head)
      | None => ([uncaught "ERR_SOCKET_BAD_PORT"], Closed)
      end.

(** One event of a tunnel.  [pipe] ends its destination when its source
    ends; the upstream socket does not stay half-open, so its end closes
    the tunnel. *)
Definition tunnel_step (st : tunnel_state) (e : tunnel_event)
  : option (list action * tunnel_state) :=
  match st, e with
  | Connecting head, connected =>
      Some (clientSocket_write tunnel_200 ::
            (match head with
             | [] => []
             | _ :: _ => [serverSocket_write head]
             end), Relaying true)
  | (Connecting _ | Relaying _), serverSocket_error =>
      Some ([console_error; clientSocket_write tunnel_502;
             clientSocket_destroy], Closed)
  | Relaying true, client_data chunk =>
      Some ([serverSocket_write chunk], Relaying true)
  | Relaying c, server_data chunk =>
      Some ([clientSocket_write chunk], Relaying c)
  | Relaying true, client_end => Some ([serverSocket_end], Relaying false)
  | Relaying _, server_end => Some ([clientSocket_end], Closed)
  | _, _ => None
  end.

Fixpoint tunnel_run (st : tunnel_state) (evs : list tunnel_event)
  : option (list action * tunnel_state) :=
  match evs with
  | [] => Some ([], st)
  | e :: evs' =>
      match tunnel_step st e with
      | Some (out, st') =>
          match tunnel_run st' evs' with
          | Some (outs, st'') => Some (out ++ outs, st'')
          | None => None
          end
      | None => None
      end
  end.

Definition tunnel_exchange (req : IncomingMessage) (head : bytes)
    (evs : list tunnel_event) : option (list action) :=
  let '(out, st) := on_connect req head in
  match tunnel_run st evs with
  | Some (outs, _) => Some (out ++ outs)
  | None => None
  end.
End Relay.

(** * The vocabulary of the properties

    Notions the statements below need: the words of the specification, what
    a trace shows, and the configurations and requests of the examples. *)

(** The string the verifier compares: [Buffer.from(m1, 'base64').toString()]. *)
Definition decoded_credential (m1 : jsstring) : jsstring :=
  Buffer_toString (Buffer_from_base64 m1).

(** Example configurations. *)
Definition default_cfg : ProxyConfig :=
  {| PROXY_USER := js "proxyuser"; PROXY_PASS := js "proxypass";
     WHITELIST := [] |}.

Definition colon_cfg : ProxyConfig :=
  {| PROXY_USER := js "alice"; PROXY_PASS := js "s3:cret"; WHITELIST := [] |}.

Definition empty_pass_cfg : ProxyConfig :=
  {| PROXY_USER := js "proxyuser"; PROXY_PASS := []; WHITELIST := [] |}.

Definition v6_cfg : ProxyConfig :=
  {| PROXY_USER := js "proxyuser"; PROXY_PASS := js "proxypass";
     WHITELIST := [js "[::1]"; js "api.example.com"] |}.

(** Follows the words of the claim ("an invalid base64 encoding"): a valid
    encoding in the sense of RFC 4648, section 4, is a run of characters of
    the standard alphabet, then at most two [=], of a length that is a
    multiple of four. *)
Definition is_base64_char (c : code_unit) : bool :=
  (65 <=? c) && (c <=? 90) || (97 <=? c) && (c <=? 122)
  || (48 <=? c) && (c <=? 57) || (c =? 43) || (c =? 47).

Fixpoint after_alphabet (s : jsstring) : jsstring :=
  match s with
  | c :: s' => if is_base64_char c then after_alphabet s' else s
  | [] => []
  end.

Definition rfc4648_valid (s : jsstring) : bool :=
  (N.of_nat (length s) mod 4 =? 0)
  && match after_alphabet s with
     | [] | [61] | [61; 61] => true
     | _ => false
     end.

(** The malformed inputs the code turns into [false]: no header, a header
    that does not match the [Basic] pattern (the empty string is one), and a
    payload whose decoded string has no colon. *)
Definition malformed (header : option jsstring) : bool :=
  match header with
  | None => true
  | Some h =>
      match match_basic h with
      | None => true
      | Some m1 => negb (bool_decide (COLON ∈ decoded_credential m1))
      end
  end.

(** Follows the words of the claim ("strips any trailing :port segment"):
    a colon and the decimal digits after it, at the end of the name. *)
Fixpoint drop_digits (s : jsstring) : jsstring :=
  match s with
  | c :: s' => if is_digit c then drop_digits s' else s
  | [] => []
  end.

Definition strip_trailing_port (hostname : jsstring) : jsstring :=
  match drop_digits (reverse hostname) with
  | 58 :: host_rev => reverse host_rev
  | _ => hostname
  end.

(** Follows the words of the claim: a port segment is numeric when it is a
    non-empty run of decimal digits, and then has a numeric value. *)
Definition numeric (seg : jsstring) : bool :=
  match seg with
  | [] => false
  | _ :: _ => forallb is_digit seg
  end.

Definition decimal_value (seg : jsstring) : N :=
  digits_value (map (fun c => c - 48) seg).

(** The port was not taken from the segment: [parseInt] gave nothing truthy
    and [|| 443] supplied it. *)
Definition defaulted (url : jsstring) : bool :=
  negb (truthy (parseInt10 (tunnel_portStr url))).

(** The calls of a trace that open an upstream connection. *)
Definition opened (tr : list action) : list action :=
  List.filter opens_upstream tr.

(** The heads written on the structured response. *)
Fixpoint response_heads (tr : list action) : list (Z * headers) :=
  match tr with
  | res_writeHead status hs :: tr' => (status, hs) :: response_heads tr'
  | _ :: tr' => response_heads tr'
  | [] => []
  end.

(** The body bytes written on the structured response. *)
Fixpoint response_body (tr : list action) : bytes :=
  match tr with
  | res_write chunk :: tr' => chunk ++ response_body tr'
  | res_end body :: tr' => body ++ response_body tr'
  | _ :: tr' => response_body tr'
  | [] => []
  end.

(** The bytes written on the raw client socket, and on the upstream socket
    of a tunnel. *)
Fixpoint to_client (tr : list action) : bytes :=
  match tr with
  | clientSocket_write data :: tr' => data ++ to_client tr'
  | _ :: tr' => to_client tr'
  | [] => []
  end.

Fixpoint to_upstream (tr : list action) : bytes :=
  match tr with
  | serverSocket_write data :: tr' => data ++ to_upstream tr'
  | _ :: tr' => to_upstream tr'
  | [] => []
  end.

(** A stand-in for [url.URL] in the examples, for texts of the form
    [scheme://host[:port]/path] with a registered name as host. *)
Definition example_URL (text : jsstring) : option URL :=
  match split 47 text with
  | _ :: [] :: authority :: _ =>
      Some {| href := text;
              protocol := default [] (split 47 text !! 0%nat);
              hostname := default [] (split COLON authority !! 0%nat) |}
  | _ => None
  end.

Definition good_headers : headers :=
  {[ js "proxy-authorization" := HStr (js "Basic cHJveHl1c2VyOnByb3h5cGFzcw==");
     js "host" := HStr (js "api.example.com") ]}.

Definition get_request : IncomingMessage :=
  {| req_method := js "GET"; req_url := js "http://api.example.com/data";
     req_headers := good_headers |}.

Definition connect_request : IncomingMessage :=
  {| req_method := js "CONNECT"; req_url := js "api.example.com:8443";
     req_headers := good_headers |}.

Definition anonymous_request : IncomingMessage :=
  {| req_method := js "GET"; req_url := js "http://api.example.com/data";
     req_headers := {[ js "host" := HStr (js "api.example.com") ]} |}.

(** The credential check as the two handlers make it. *)
Definition authenticated (cfg : ProxyConfig) (req : IncomingMessage) : bool :=
  checkBasicAuth cfg (get_header (req_headers req) (js "proxy-authorization")).

Definition is_data (e : tunnel_event) : bool :=
  match e with
  | client_data _ | server_data _ => true
  | _ => false
  end.

(** The bytes each side sent during a run of events. *)
Fixpoint from_client (evs : list tunnel_event) : bytes :=
  match evs with
  | client_data chunk :: evs' => chunk ++ from_client evs'
  | _ :: evs' => from_client evs'
  | [] => []
  end.

Fixpoint from_server (evs : list tunnel_event) : bytes :=
  match evs with
  | server_data chunk :: evs' => chunk ++ from_server evs'
  | _ :: evs' => from_server evs'
  | [] => []
  end.




Definition upstream_headers : headers :=
  {[ js "content-type" := HStr (js "application/json");
     js "connection" := HStr (js "keep-alive");
     js "transfer-encoding" := HStr (js "chunked");
     js "set-cookie" := HArr [js "a=1"; js "b=2"] ]}.

Definition tunnel_bad_gateway : list action :=
  [console_error; clientSocket_write tunnel_502; clientSocket_destroy].

(** ** Start-up: the constants read from the environment (lines 9-12) *)

(** [process.env]: a variable is a string or [undefined]. *)
Record environment := {
  env_PORT : option jsstring;
  env_PROXY_USER : option jsstring;
  env_PROXY_PASS : option jsstring;
  env_WHITELIST_HOSTS : option jsstring
}.

(** [v || d]: the default stands in for [undefined] and for the empty
    string. *)
Definition or_default (v : option jsstring) (d : jsstring) : jsstring :=
  match v with
  | Some (c :: s) => c :: s
  | _ => d
  end.

(** [s.trim()]: blanks and line terminators go from both ends. *)
Definition trim (s : jsstring) : jsstring :=
  reverse (trim_start (reverse (trim_start s))).

Definition COMMA : code_unit := 44.

(** ToBoolean of a string, as [filter(Boolean)] applies it. *)
Definition nonempty (s : jsstring) : bool :=
  match s with
  | [] => false
  | _ :: _ => true
  end.

(** Line 12: [(process.env.WHITELIST_HOSTS || '').split(',').map(s =>
    s.trim()).filter(Boolean)]. *)
Definition parse_whitelist (v : option jsstring) : list jsstring :=
  List.filter nonempty (map trim (split COMMA (or_default v []))).

(** Line 9: [process.env.PORT ? parseInt(process.env.PORT, 10) : 8080]. *)
Definition listen_port (v : option jsstring) : number :=
  match v with
  | Some (c :: s) => parseInt10 (Some (c :: s))
  | _ => Int 8080
  end.

Definition load_config (env : environment) : ProxyConfig :=
  {| PROXY_USER := or_default (env_PROXY_USER env) (js "proxyuser");
     PROXY_PASS := or_default (env_PROXY_PASS env) (js "proxypass");
     WHITELIST := parse_whitelist (env_WHITELIST_HOSTS env) |}.

(** ** The clientError handler (lines 133-136)

    [socket.end(data)] writes [data] and ends the socket. *)
Definition tunnel_400 : bytes := js "HTTP/1.1 400 Bad Request" ++ CRLF ++ CRLF.

Definition on_clientError : list action :=
  [console_error; clientSocket_write tunnel_400; clientSocket_end].

(** ** More vocabulary *)

(** What a client sends: the base64 encoding of RFC 4648, section 4, with
    padding. *)
Definition base64_char (v : N) : code_unit :=
  if v <? 26 then 65 + v
  else if v <? 52 then 97 + (v - 26)
  else if v <? 62 then 48 + (v - 52)
  else if v =? 62 then 43
  else 47.

Fixpoint base64_encode (bs : bytes) : jsstring :=
  match bs with
  | a :: b :: c :: bs' =>
      base64_char (a / 4) :: base64_char ((a mod 4) * 16 + b / 16)
      :: base64_char ((b mod 16) * 4 + c / 64) :: base64_char (c mod 64)
      :: base64_encode bs'
  | [a; b] =>
      [base64_char (a / 4); base64_char ((a mod 4) * 16 + b / 16);
       base64_char ((b mod 16) * 4); 61]
  | [a] => [base64_char (a / 4); base64_char ((a mod 4) * 16); 61; 61]
  | [] => []
  end.

(** The header a client builds from a user name and a password. *)
Definition basic_header (user pass : jsstring) : jsstring :=
  js "Basic " ++ base64_encode (user ++ COLON :: pass).

Definition is_ascii (c : code_unit) : bool := c <=? 127.

(** [pieces.join(sep)] *)
Fixpoint join (sep : code_unit) (pieces : list jsstring) : jsstring :=
  match pieces with
  | [] => []
  | [w] => w
  | w :: ws => w ++ sep :: join sep ws
  end.



Definition is_upstream_error (e : http_event) : bool :=
  match e with
  | upstream_error => true
  | _ => false
  end.

Definition is_serverSocket_error (e : tunnel_event) : bool :=
  match e with
  | serverSocket_error => true
  | _ => false
  end.

(** A request in origin form without a Host header. *)
Definition relative_request : IncomingMessage :=
  {| req_method := js "GET"; req_url := js "/data";
     req_headers := {[ js "proxy-authorization" :=
                         HStr (js "Basic cHJveHl1c2VyOnByb3h5cGFzcw==") ]} |}.



(** The status codes the proxy answers with on its own. *)
Definition own_statuses : list Z := [407; 400; 403; 502]%Z.

(** The three names the request handler deletes before forwarding. *)
Definition proxy_specific : list jsstring :=
  [js "proxy-authorization"; js "proxy-connection"; js "connection"].

(** * Properties *)

(** ** Splitting *)

Lemma split_cons_eq (sep c : code_unit) (s : jsstring) :
  split sep (c :: s) =
    if c =? sep then [] :: split sep s
    else match split sep s with
         | w :: ws => (c :: w) :: ws
         | [] => [[c]]
         end.
Proof. reflexivity. Qed.

Lemma split_not_nil (sep : code_unit) (s : jsstring) : split sep s ≠ [].
Proof.
  induction s as [|c s IH]; [discriminate|].
  rewrite split_cons_eq. destruct (c =? sep); [discriminate|].
  destruct (split sep s); [congruence | discriminate].
Qed.

Lemma split_no_sep (sep : code_unit) (s : jsstring) :
  sep ∉ s → split sep s = [s].
Proof.
  induction s as [|c s IH]; intros Hs; [reflexivity|].
  rewrite split_cons_eq.
  apply not_elem_of_cons in Hs as [Hc Hs].
  destruct (N.eqb_spec c sep) as [->|_]; [congruence|].
  now rewrite IH.
Qed.

Lemma split_app_sep (sep : code_unit) (a b : jsstring) :
  sep ∉ a → split sep (a ++ sep :: b) = a :: split sep b.
Proof.
  induction a as [|c a IH]; intros Ha; simpl app.
  - rewrite split_cons_eq, N.eqb_refl. reflexivity.
  - apply not_elem_of_cons in Ha as [Hc Ha].
    rewrite split_cons_eq, (IH Ha).
    destruct (N.eqb_spec c sep) as [->|_]; [congruence | reflexivity].
Qed.

Lemma split_pieces (sep : code_unit) (s : jsstring) :
  Forall (fun w => sep ∉ w) (split sep s).
Proof.
  induction s as [|c s IH].
  - repeat constructor. apply not_elem_of_nil.
  - rewrite split_cons_eq. destruct (N.eqb_spec c sep) as [->|Hne].
    + constructor; [apply not_elem_of_nil | exact IH].
    + destruct (split sep s) as [|w ws].
      * repeat constructor. rewrite list_elem_of_singleton. congruence.
      * inversion IH as [|? ? Hw Hws]; subst. constructor; [|exact Hws].
        rewrite elem_of_cons. intros [->|Hin]; [congruence | exact (Hw Hin)].
Qed.

Lemma split_lookup_no_sep (sep : code_unit) (s w : jsstring) (i : nat) :
  split sep s !! i = Some w → sep ∉ w.
Proof.
  intros Hi. pose proof (split_pieces sep s) as HF.
  rewrite Forall_lookup in HF. exact (HF i w Hi).
Qed.

(** ** The runtime calls on sample inputs *)

(** The scheme is matched whatever its case, the blanks after it are skipped,
    and a header of blanks only gives its last blank as payload. *)
Example match_basic_samples :
  match_basic (js "bAsIc   dXNlcjpwYXNz") = Some (js "dXNlcjpwYXNz")
  ∧ match_basic (js "Basic   ") = Some (js " ")
  ∧ match_basic (js "Basic") = None
  ∧ match_basic (js "BasicdXNlcjpwYXNz") = None
  ∧ match_basic (js "Bearer dXNlcjpwYXNz") = None
  ∧ match_basic (js "Basic dXNl" ++ [LF] ++ js "cjpwYXNz") = None.
Proof. vm_compute. repeat split; reflexivity. Qed.

(** The decoder needs no padding, reads the URL-safe alphabet, skips what is
    outside the alphabet and stops at the first [=]. *)
Example base64_samples :
  Buffer_from_base64 (js "dXNlcjpwYXNz") = js "user:pass"
  ∧ Buffer_from_base64 (js "dXNlcjpwYXM=") = js "user:pas"
  ∧ Buffer_from_base64 (js "dXNlcjpwYXM") = js "user:pas"
  ∧ Buffer_from_base64 (js "dXNl cjpw*YXNz") = js "user:pass"
  ∧ Buffer_from_base64 (js "dXNl=cjpwYXNz") = js "use"
  ∧ Buffer_from_base64 (js "_-8=") = [255; 239]
  ∧ Buffer_from_base64 (js "!") = [].
Proof. vm_compute. repeat split; reflexivity. Qed.

(** ASCII is decoded as it is, a three-byte and a four-byte sequence give one
    and two code units, an ill-formed byte gives U+FFFD. *)
Example toString_samples :
  Buffer_toString (js "user:pass") = js "user:pass"
  ∧ Buffer_toString [0xE2; 0x82; 0xAC] = [0x20AC]
  ∧ Buffer_toString [0xF0; 0x9F; 0x98; 0x80] = [0xD83D; 0xDE00]
  ∧ Buffer_toString [0xE2; 0x3A; 0xFF] = [0xFFFD; 0x3A; 0xFFFD].
Proof. vm_compute. repeat split; reflexivity. Qed.

Example parseInt_samples :
  parseInt10 (Some (js "8080")) = Int 8080
  ∧ parseInt10 (Some (js " +80abc")) = Int 80
  ∧ parseInt10 (Some (js "-5")) = Int (-5)
  ∧ parseInt10 (Some (js "0x1F")) = Int 0
  ∧ parseInt10 (Some (js "")) = NaN
  ∧ parseInt10 (Some (js "abc")) = NaN
  ∧ parseInt10 None = NaN
  ∧ parseInt10 (Some (js "99999999999999999999")) = Large false.
Proof. vm_compute. repeat split; reflexivity. Qed.

(** ** The credential verifier *)

Lemma checkBasicAuth_match (cfg : ProxyConfig) (h m1 : jsstring) :
  match_basic h = Some m1 →
  checkBasicAuth cfg (Some h) =
    strict_eq (split COLON (decoded_credential m1) !! 0%nat) (PROXY_USER cfg)
    && strict_eq (split COLON (decoded_credential m1) !! 1%nat) (PROXY_PASS cfg).
Proof.
  intros Hm. unfold checkBasicAuth. rewrite Hm.
  destruct h as [|c h]; [discriminate Hm | reflexivity].
Qed.

Lemma checkBasicAuth_no_match (cfg : ProxyConfig) (h : jsstring) :
  match_basic h = None → checkBasicAuth cfg (Some h) = false.
Proof.
  intros Hm. unfold checkBasicAuth. rewrite Hm. now destruct h.
Qed.

(** Without a colon in the decoded string [pass] is [undefined], which is
    not [===] to any string. *)
Lemma checkBasicAuth_no_colon (cfg : ProxyConfig) (h m1 : jsstring) :
  match_basic h = Some m1 →
  COLON ∉ decoded_credential m1 →
  checkBasicAuth cfg (Some h) = false.
Proof.
  intros Hm Hc. rewrite (checkBasicAuth_match _ _ _ Hm).
  rewrite (split_no_sep _ _ Hc). simpl. apply andb_false_r.
Qed.

(** A configured password with a colon locks everybody out: [pass] is a piece
    of the split and so never holds a colon. *)
Lemma colon_password_never_verifies (cfg : ProxyConfig) (header : option jsstring) :
  COLON ∈ PROXY_PASS cfg → checkBasicAuth cfg header = false.
Proof.
  intros Hp. destruct header as [h|]; [|reflexivity].
  destruct (match_basic h) as [m1|] eqn:Hm.
  - rewrite (checkBasicAuth_match _ _ _ Hm).
    destruct (split COLON (decoded_credential m1) !! 1%nat) as [w|] eqn:Hw;
      simpl; [|apply andb_false_r].
    apply split_lookup_no_sep in Hw.
    rewrite bool_decide_eq_false_2; [apply andb_false_r|].
    intros ->. contradiction.
  - now apply checkBasicAuth_no_match.
Qed.

(** C2: the claim wants a credential that decodes to user:pass to verify
    when the configured password holds a colon.  The code splits on every
    colon and compares the second piece only: with user [alice] and password
    [s3:cret], the credential that decodes to [alice:s3:cret] is split into
    [alice], [s3], [cret] and is refused. *)
Theorem colon_password_rejected :
  match_basic (js "Basic YWxpY2U6czM6Y3JldA==") = Some (js "YWxpY2U6czM6Y3JldA==")
  ∧ decoded_credential (js "YWxpY2U6czM6Y3JldA==")
    = PROXY_USER colon_cfg ++ COLON :: PROXY_PASS colon_cfg
  ∧ split COLON (decoded_credential (js "YWxpY2U6czM6Y3JldA=="))
    = [js "alice"; js "s3"; js "cret"]
  ∧ checkBasicAuth colon_cfg (Some (js "Basic YWxpY2U6czM6Y3JldA==")) = false.
Proof. vm_compute. repeat split; reflexivity. Qed.

(** C9, as the claim states it, fails: a payload that is not valid base64
    (a blank in the middle) is decoded all the same, the decoder skipping the
    blank, and verifies. *)
Lemma lenient_base64_verifies :
  rfc4648_valid (js "cHJveHl1c2Vy OnByb3h5cGFzcw==") = false
  ∧ checkBasicAuth default_cfg (Some (js "Basic cHJveHl1c2Vy OnByb3h5cGFzcw=="))
    = true.
Proof. vm_compute. split; reflexivity. Qed.

(** C9, amended: an absent header, a header that does not match the [Basic]
    pattern and a payload whose decoded string has no colon all give [false];
    the [try] block completes with a boolean for every payload (nothing is
    thrown), a payload that is not valid base64 being judged on what the
    lenient decoder makes of it. *)
Theorem checkBasicAuth_malformed (cfg : ProxyConfig) (header : option jsstring)
    (Hbad : malformed header = true) :
  checkBasicAuth cfg header = false
  ∧ ∀ m1, ∃ b, checkBasicAuth_try cfg m1 = Return b.
Proof.
  split; [|intros m1; eexists; reflexivity].
  destruct header as [h|]; [|reflexivity].
  simpl in Hbad. destruct (match_basic h) as [m1|] eqn:Hm.
  - apply (checkBasicAuth_no_colon _ _ _ Hm).
    apply negb_true_iff, bool_decide_eq_false in Hbad. exact Hbad.
  - now apply checkBasicAuth_no_match.
Qed.

Lemma checkBasicAuth_malformed_witness :
  checkBasicAuth default_cfg (Some (js "Bearer cHJveHl1c2VyOnByb3h5cGFzcw=="))
  = false
  ∧ ∀ m1, ∃ b, checkBasicAuth_try default_cfg m1 = Return b.
Proof.
  apply (checkBasicAuth_malformed default_cfg
           (Some (js "Bearer cHJveHl1c2VyOnByb3h5cGFzcw=="))).
  vm_compute. reflexivity.
Defined.

(** C10: a [Basic] credential whose payload decodes to a string without any
    colon is refused, whatever the configured pair: [pass] is [undefined],
    which equals no string, the empty one included. *)
Theorem no_colon_never_verifies (cfg : ProxyConfig) (h m1 : jsstring)
    (Hm : match_basic h = Some m1)
    (Hc : COLON ∉ decoded_credential m1) :
  checkBasicAuth cfg (Some h) = false.
Proof. exact (checkBasicAuth_no_colon cfg h m1 Hm Hc). Qed.

Lemma no_colon_never_verifies_witness :
  decoded_credential (js "cHJveHl1c2Vy") = PROXY_USER empty_pass_cfg
  ∧ PROXY_PASS empty_pass_cfg = []
  ∧ checkBasicAuth empty_pass_cfg (Some (js "Basic cHJveHl1c2Vy")) = false.
Proof.
  split; [reflexivity|]. split; [reflexivity|].
  apply (no_colon_never_verifies empty_pass_cfg (js "Basic cHJveHl1c2Vy")
           (js "cHJveHl1c2Vy")).
  - reflexivity.
  - vm_compute. intros H. apply list_elem_of_In in H. simpl in H.
    intuition discriminate.
Defined.

(** ** The destination authorizer *)

(** C4: with an empty allow-list every destination is allowed. *)
Theorem hostAllowed_empty_list (cfg : ProxyConfig) (hostname : jsstring)
    (Hempty : WHITELIST cfg = []) :
  hostAllowed cfg hostname = true.
Proof. unfold hostAllowed. now rewrite Hempty. Qed.

Lemma hostAllowed_empty_list_witness :
  hostAllowed default_cfg (js "evil.example:8443") = true.
Proof.
  apply (hostAllowed_empty_list default_cfg (js "evil.example:8443")).
  reflexivity.
Defined.

(** For a host name without a colon, with or without a [:port] behind it,
    the authorizer is exact membership of the host in the list. *)
Lemma hostAllowed_exact (cfg : ProxyConfig) (host port : jsstring) :
  WHITELIST cfg ≠ [] → COLON ∉ host →
  hostAllowed cfg host = bool_decide (host ∈ WHITELIST cfg)
  ∧ hostAllowed cfg (host ++ COLON :: port) = bool_decide (host ∈ WHITELIST cfg).
Proof.
  intros Hne Hh. unfold hostAllowed.
  destruct (WHITELIST cfg) as [|w ws] eqn:Hw; [congruence|].
  rewrite (split_no_sep _ _ Hh), (split_app_sep _ _ port Hh). split; reflexivity.
Qed.

(** C3: the claim wants the trailing port stripped and the rest looked up in
    the list.  The code keeps what stands before the first colon: the IPv6
    literal [[::1]] (the [hostname] of [http://[::1]:8080/]) has no port to
    strip and is on the list, and is refused, the code looking up [[]. *)
Theorem ipv6_literal_refused :
  strip_trailing_port (js "[::1]") = js "[::1]"
  ∧ bool_decide (js "[::1]" ∈ WHITELIST v6_cfg) = true
  ∧ split COLON (js "[::1]") !! 0%nat = Some (js "[")
  ∧ hostAllowed v6_cfg (js "[::1]") = false.
Proof. vm_compute. repeat split; reflexivity. Qed.

(** ** The port of a tunnel *)

Lemma digit_not_space (c : code_unit) : is_digit c = true → is_space c = false.
Proof.
  unfold is_digit, is_space. intros H.
  apply andb_true_iff in H as [H1 H2].
  apply N.leb_le in H1, H2.
  repeat match goal with
         | |- context [?a <=? ?b] =>
             destruct (N.leb_spec a b); try lia
         | |- context [?a =? ?b] =>
             destruct (N.eqb_spec a b); try lia
         end; reflexivity.
Qed.

Lemma digit_not_sign (c : code_unit) (r : jsstring) :
  is_digit c = true → skip_sign (c :: r) = (false, c :: r).
Proof.
  unfold is_digit, skip_sign. intros H.
  apply andb_true_iff in H as [H1 H2].
  apply N.leb_le in H1, H2.
  destruct (N.eqb_spec c 45); [lia|].
  destruct (N.eqb_spec c 43); [lia|]. reflexivity.
Qed.

Lemma take_digits_all (s : jsstring) :
  forallb is_digit s = true → take_digits s = map (fun c => c - 48) s.
Proof.
  induction s as [|c s IH]; [reflexivity|]. simpl. intros H.
  apply andb_true_iff in H as [Hc Hs]. now rewrite Hc, IH.
Qed.

Lemma leading_digits_numeric (seg : jsstring) :
  numeric seg = true →
  leading_digits seg = map (fun c => c - 48) seg
  ∧ leading_digits seg ≠ []
  ∧ fst (skip_sign (trim_start seg)) = false.
Proof.
  destruct seg as [|c r]; [discriminate|]. intros H.
  pose proof H as [Hc Hr]%andb_true_iff.
  unfold leading_digits.
  assert (Ht : trim_start (c :: r) = c :: r)
    by (simpl; now rewrite (digit_not_space c Hc)).
  rewrite Ht, (digit_not_sign c r Hc). simpl snd.
  rewrite (take_digits_all _ H). repeat split. discriminate.
Qed.

Lemma parseInt10_numeric (seg : jsstring) :
  numeric seg = true →
  parseInt10 (Some seg) =
    if decimal_value seg <=? 2 ^ 53 then Int (Z.of_N (decimal_value seg))
    else Large false.
Proof.
  intros H. destruct (leading_digits_numeric seg H) as (Hd & Hne & Hs).
  unfold parseInt10. rewrite Hs. fold (decimal_value seg) in Hd.
  unfold decimal_value. rewrite <- Hd.
  destruct (leading_digits seg); [congruence | reflexivity].
Qed.

Lemma truthy_parseInt10 (seg : jsstring) :
  truthy (parseInt10 (Some seg)) =
    negb (bool_decide (leading_digits seg = [])
          || (digits_value (leading_digits seg) =? 0)).
Proof.
  unfold parseInt10.
  destruct (leading_digits seg) as [|d ds] eqn:Hd; [reflexivity|].
  rewrite bool_decide_eq_false_2 by discriminate. simpl orb.
  set (v := digits_value (d :: ds)).
  destruct (N.leb_spec v (2 ^ 53)) as [Hle|Hgt]; simpl truthy.
  - destruct (fst (skip_sign (trim_start seg)));
      destruct (N.eqb_spec v 0) as [->|Hv]; try reflexivity;
      simpl; destruct (Z.eqb_spec (- Z.of_N v) 0); 
      destruct (Z.eqb_spec (Z.of_N v) 0); try reflexivity; lia.
  - destruct (N.eqb_spec v 0) as [Hv|Hv]; [|reflexivity].
    rewrite Hv in Hgt. vm_compute in Hgt. discriminate.
Qed.

(** C5, as the claim states it, fails in both directions: [0] is a numeric
    segment and the port is 443, not 0; [8080x] is not numeric and the port
    is 8080, not 443. *)
Lemma port_zero_and_digit_prefix :
  numeric (js "0") = true ∧ decimal_value (js "0") = 0
  ∧ tunnel_port (js "example.com:0") = Int 443
  ∧ numeric (js "8080x") = false
  ∧ tunnel_port (js "example.com:8080x") = Int 8080.
Proof. vm_compute. repeat split; reflexivity. Qed.

(** C5, amended: for a target [host] or [host:segment], the port is what
    [parseInt(segment, 10)] gives when that is a number other than 0, and 443
    otherwise.  So a missing segment gives 443; a segment of decimal digits
    gives its numeric value when that is at most 2^53, unless it is 0, which
    gives 443, and above 2^53 it gives the number the runtime rounds the
    value to, never the default; and the default is taken exactly when the
    segment has no digits to read (after leading blanks and one sign) or
    their value is 0. *)
Theorem tunnel_port_of_target (host seg : jsstring)
    (Hh : COLON ∉ host) (Hs : COLON ∉ seg) :
  tunnel_host host = host ∧ tunnel_port host = Int 443
  ∧ tunnel_host (host ++ COLON :: seg) = host
  ∧ tunnel_port (host ++ COLON :: seg) =
      (if truthy (parseInt10 (Some seg)) then parseInt10 (Some seg)
       else Int 443)
  ∧ (numeric seg = true → decimal_value seg ≠ 0 →
     decimal_value seg <= 2 ^ 53 →
     tunnel_port (host ++ COLON :: seg) = Int (Z.of_N (decimal_value seg)))
  ∧ (numeric seg = true → 2 ^ 53 < decimal_value seg →
     tunnel_port (host ++ COLON :: seg) = Large false
     ∧ defaulted (host ++ COLON :: seg) = false)
  ∧ (numeric seg = true → decimal_value seg = 0 →
     tunnel_port (host ++ COLON :: seg) = Int 443)
  ∧ (defaulted (host ++ COLON :: seg) = true ↔
     leading_digits seg = [] ∨ digits_value (leading_digits seg) = 0).
Proof.
  assert (Hp : tunnel_portStr (host ++ COLON :: seg) = Some seg).
  { unfold tunnel_portStr.
    now rewrite (split_app_sep _ _ _ Hh), (split_no_sep _ _ Hs). }
  assert (Hport : tunnel_port (host ++ COLON :: seg) =
      (if truthy (parseInt10 (Some seg)) then parseInt10 (Some seg)
       else Int 443)).
  { unfold tunnel_port. now rewrite Hp. }
  repeat split.
  - unfold tunnel_host. now rewrite (split_no_sep _ _ Hh).
  - unfold tunnel_port, tunnel_portStr. now rewrite (split_no_sep _ _ Hh).
  - unfold tunnel_host. now rewrite (split_app_sep _ _ _ Hh).
  - exact Hport.
  - intros Hn Hv Hle. rewrite Hport, (parseInt10_numeric _ Hn).
    apply N.leb_le in Hle. rewrite Hle. simpl.
    destruct (Z.eqb_spec (Z.of_N (decimal_value seg)) 0); [lia | reflexivity].
  - rewrite Hport, (parseInt10_numeric _ H).
    apply N.leb_gt in H0. now rewrite H0.
  - unfold defaulted. rewrite Hp, (parseInt10_numeric _ H).
    apply N.leb_gt in H0. now rewrite H0.
  - intros Hn Hv. rewrite Hport, (parseInt10_numeric _ Hn), Hv. reflexivity.
  - unfold defaulted. rewrite Hp, truthy_parseInt10, negb_involutive.
    intros [H|H]%orb_true_iff; [left | right].
    + now apply bool_decide_eq_true in H.
    + now apply N.eqb_eq in H.
  - unfold defaulted. rewrite Hp, truthy_parseInt10, negb_involutive.
    intros [H|H]; apply orb_true_iff; [left | right].
    + now apply bool_decide_eq_true.
    + now apply N.eqb_eq.
Qed.

Lemma tunnel_port_of_target_witness :
  tunnel_port (js "example.com") = Int 443
  ∧ tunnel_port (js "example.com:8443") = Int 8443.
Proof.
  destruct (tunnel_port_of_target (js "example.com") (js "8443"))
    as (_ & Hmissing & _ & _ & Hnumeric & _ & _).
  - apply (bool_decide_unpack _). vm_compute. exact I.
  - apply (bool_decide_unpack _). vm_compute. exact I.
  - split; [exact Hmissing|].
    apply Hnumeric; [reflexivity | discriminate | discriminate].
Defined.

(** ** What a trace shows *)

(** The request handler either answers by itself, touching no upstream, or
    has passed both checks and opens one outgoing request. *)
Lemma on_request_cases (cfg : ProxyConfig) (new_URL : jsstring → option URL)
    (req : IncomingMessage) :
  (snd (on_request cfg new_URL req) = HttpDone
   ∧ existsb is_upstream (fst (on_request cfg new_URL req)) = false
   ∧ (authenticated cfg req = false →
      fst (on_request cfg new_URL req) = unauthorized))
  ∨ (∃ target,
       authenticated cfg req = true
       ∧ resolve_target new_URL req = Target target
       ∧ hostAllowed cfg (hostname target) = true
       ∧ on_request cfg new_URL req =
           ([http_request target (req_method req)
               (forwarded_headers (req_headers req))], Awaiting)).
Proof.
  unfold on_request, authenticated.
  destruct (checkBasicAuth cfg _) eqn:Hauth; simpl negb; cbv iota.
  - destruct (resolve_target new_URL req) as [target| |] eqn:Ht.
    + destruct (hostAllowed cfg (hostname target)) eqn:Hhost; simpl negb;
        cbv iota.
      * destruct (bool_decide (protocol target = js "http:")).
        -- right. exists target.
           repeat split; first [reflexivity | assumption].
        -- left. repeat split; first [reflexivity | discriminate].
      * left. repeat split; first [reflexivity | discriminate].
    + left. repeat split; first [reflexivity | discriminate].
    + left. repeat split; first [reflexivity | discriminate].
  - left. repeat split; reflexivity.
Qed.

Lemma on_connect_cases (cfg : ProxyConfig) (req : IncomingMessage)
    (head : bytes) :
  (snd (on_connect cfg req head) = Closed
   ∧ existsb is_upstream (fst (on_connect cfg req head)) = false
   ∧ (authenticated cfg req = false →
      fst (on_connect cfg req head) =
        [clientSocket_write tunnel_407; clientSocket_destroy]))
  ∨ (∃ p,
       authenticated cfg req = true
       ∧ hostAllowed cfg (tunnel_host (req_url req)) = true
       ∧ legal_port (tunnel_port (req_url req)) = Some p
       ∧ on_connect cfg req head =
           ([net_connect p (tunnel_host (req_url req))], Connecting head)).
Proof.
  unfold on_connect, authenticated.
  destruct (checkBasicAuth cfg _) eqn:Hauth; simpl negb; cbv iota.
  - destruct (hostAllowed cfg _) eqn:Hhost; simpl negb; cbv iota.
    + destruct (legal_port _) as [p|] eqn:Hp.
      * right. exists p. repeat split; first [reflexivity | assumption].
      * left. repeat split; first [reflexivity | discriminate].
    + left. repeat split; first [reflexivity | discriminate].
  - left. repeat split; reflexivity.
Qed.

(** Once an exchange is over no event is handled any more. *)
Lemma http_run_done (evs : list http_event) (tr : list action) (st : http_state) :
  http_run HttpDone evs = Some (tr, st) → evs = [] ∧ tr = [] ∧ st = HttpDone.
Proof. destruct evs; simpl; intros H; [now inversion H | discriminate]. Qed.

Lemma tunnel_run_closed (evs : list tunnel_event) (tr : list action)
    (st : tunnel_state) :
  tunnel_run Closed evs = Some (tr, st) → evs = [] ∧ tr = [] ∧ st = Closed.
Proof. destruct evs; simpl; intros H; [now inversion H | discriminate]. Qed.

Lemma http_run_cons (st : http_state) (e : http_event) (evs : list http_event) :
  http_run st (e :: evs) =
    match http_step st e with
    | Some (out, st') =>
        match http_run st' evs with
        | Some (outs, st'') => Some (out ++ outs, st'')
        | None => None
        end
    | None => None
    end.
Proof. reflexivity. Qed.

Lemma tunnel_run_cons (st : tunnel_state) (e : tunnel_event)
    (evs : list tunnel_event) :
  tunnel_run st (e :: evs) =
    match tunnel_step st e with
    | Some (out, st') =>
        match tunnel_run st' evs with
        | Some (outs, st'') => Some (out ++ outs, st'')
        | None => None
        end
    | None => None
    end.
Proof. reflexivity. Qed.

(** No event makes the proxy open a further upstream connection. *)
Lemma http_step_opens_nothing (st st' : http_state) (e : http_event)
    (out : list action) :
  http_step st e = Some (out, st') → opened out = [].
Proof.
  destruct st, e; simpl; intros H;
    try match type of H with
        | context [if ?b then _ else _] => destruct b
        end;
    inversion H; reflexivity.
Qed.

Lemma tunnel_step_opens_nothing (st st' : tunnel_state) (e : tunnel_event)
    (out : list action) :
  tunnel_step st e = Some (out, st') → opened out = [].
Proof.
  destruct st as [head|[]|], e; simpl; intros H; inversion H;
    try reflexivity.
  destruct head; reflexivity.
Qed.

Lemma opened_app (a b : list action) : opened (a ++ b) = opened a ++ opened b.
Proof. apply List.filter_app. Qed.

Lemma http_run_opens_nothing (evs : list http_event) :
  ∀ st tr st', http_run st evs = Some (tr, st') → opened tr = [].
Proof.
  induction evs as [|e evs IH]; intros st tr st'.
  - simpl. intros H. now inversion H.
  - rewrite http_run_cons.
    destruct (http_step st e) as [[out st1]|] eqn:Hs; [|discriminate].
    destruct (http_run st1 evs) as [[outs st2]|] eqn:Hr; [|discriminate].
    intros H. inversion H; subst.
    now rewrite opened_app, (http_step_opens_nothing _ _ _ _ Hs), (IH _ _ _ Hr).
Qed.

Lemma tunnel_run_opens_nothing (evs : list tunnel_event) :
  ∀ st tr st', tunnel_run st evs = Some (tr, st') → opened tr = [].
Proof.
  induction evs as [|e evs IH]; intros st tr st'.
  - simpl. intros H. now inversion H.
  - rewrite tunnel_run_cons.
    destruct (tunnel_step st e) as [[out st1]|] eqn:Hs; [|discriminate].
    destruct (tunnel_run st1 evs) as [[outs st2]|] eqn:Hr; [|discriminate].
    intros H. inversion H; subst.
    now rewrite opened_app, (tunnel_step_opens_nothing _ _ _ _ Hs), (IH _ _ _ Hr).
Qed.

(** ** The gate in front of the upstream side *)

Lemma http_exchange_rejected (cfg : ProxyConfig) (new_URL : jsstring → option URL)
    (req : IncomingMessage) (evs : list http_event) (tr : list action) :
  snd (on_request cfg new_URL req) = HttpDone →
  http_exchange cfg new_URL req evs = Some tr →
  evs = [] ∧ tr = fst (on_request cfg new_URL req).
Proof.
  unfold http_exchange. destruct (on_request cfg new_URL req) as [out st].
  simpl. intros ->.
  destruct (http_run HttpDone evs) as [[outs st']|] eqn:Hr; [|discriminate].
  apply http_run_done in Hr as (-> & -> & _).
  intros H. inversion H. now rewrite app_nil_r.
Qed.

Lemma tunnel_exchange_rejected (cfg : ProxyConfig) (req : IncomingMessage)
    (head : bytes) (evs : list tunnel_event) (tr : list action) :
  snd (on_connect cfg req head) = Closed →
  tunnel_exchange cfg req head evs = Some tr →
  evs = [] ∧ tr = fst (on_connect cfg req head).
Proof.
  unfold tunnel_exchange. destruct (on_connect cfg req head) as [out st].
  simpl. intros ->.
  destruct (tunnel_run Closed evs) as [[outs st']|] eqn:Hr; [|discriminate].
  apply tunnel_run_closed in Hr as (-> & -> & _).
  intros H. inversion H. now rewrite app_nil_r.
Qed.

Lemma http_gate (cfg : ProxyConfig) (new_URL : jsstring → option URL)
    (req : IncomingMessage) (evs : list http_event) (tr : list action) :
  http_exchange cfg new_URL req evs = Some tr →
  existsb is_upstream tr = true →
  authenticated cfg req = true
  ∧ ∃ target, resolve_target new_URL req = Target target
              ∧ hostAllowed cfg (hostname target) = true.
Proof.
  intros Hex Hup.
  destruct (on_request_cases cfg new_URL req)
    as [(Hst & Hno & _)|(target & Ha & Ht & Hh & _)].
  - apply (http_exchange_rejected _ _ _ _ _ Hst) in Hex as [_ ->]. congruence.
  - split; [exact Ha | exists target; now split].
Qed.

Lemma tunnel_gate (cfg : ProxyConfig) (req : IncomingMessage) (head : bytes)
    (evs : list tunnel_event) (tr : list action) :
  tunnel_exchange cfg req head evs = Some tr →
  existsb is_upstream tr = true →
  authenticated cfg req = true
  ∧ hostAllowed cfg (tunnel_host (req_url req)) = true.
Proof.
  intros Hex Hup.
  destruct (on_connect_cases cfg req head)
    as [(Hst & Hno & _)|(p & Ha & Hh & _)].
  - apply (tunnel_exchange_rejected _ _ _ _ _ Hst) in Hex as [_ ->]. congruence.
  - now split.
Qed.

Lemma http_unauthenticated (cfg : ProxyConfig) (new_URL : jsstring → option URL)
    (req : IncomingMessage) :
  authenticated cfg req = false →
  http_exchange cfg new_URL req [] = Some unauthorized
  ∧ ∀ evs tr, http_exchange cfg new_URL req evs = Some tr →
              existsb is_upstream tr = false.
Proof.
  intros Hf.
  destruct (on_request_cases cfg new_URL req)
    as [(Hst & Hno & H407)|(target & Ha & _)]; [|congruence].
  split.
  - unfold http_exchange. specialize (H407 Hf).
    destruct (on_request cfg new_URL req) as [out st]. simpl in *. subst.
    reflexivity.
  - intros evs tr Hex.
    now apply (http_exchange_rejected _ _ _ _ _ Hst) in Hex as [_ ->].
Qed.

Lemma tunnel_unauthenticated (cfg : ProxyConfig) (req : IncomingMessage)
    (head : bytes) :
  authenticated cfg req = false →
  tunnel_exchange cfg req head [] =
    Some [clientSocket_write tunnel_407; clientSocket_destroy]
  ∧ ∀ evs tr, tunnel_exchange cfg req head evs = Some tr →
              existsb is_upstream tr = false.
Proof.
  intros Hf.
  destruct (on_connect_cases cfg req head)
    as [(Hst & Hno & H407)|(p & Ha & _)]; [|congruence].
  split.
  - unfold tunnel_exchange. specialize (H407 Hf).
    destruct (on_connect cfg req head) as [out st]. simpl in *. subst.
    reflexivity.
  - intros evs tr Hex.
    now apply (tunnel_exchange_rejected _ _ _ _ _ Hst) in Hex as [_ ->].
Qed.

(** C1: in both relays, a trace that holds any call on the upstream side
    (opening a connection or sending bytes) belongs to a request that passed
    the credential check and the destination check; a request that fails the
    credential check is answered 407 and its trace holds no upstream call at
    all, whatever events follow. *)
Theorem upstream_needs_both_checks (cfg : ProxyConfig)
    (new_URL : jsstring → option URL) (req : IncomingMessage) (head : bytes)
    (hevs : list http_event) (tevs : list tunnel_event) :
  (∀ tr, http_exchange cfg new_URL req hevs = Some tr →
         existsb is_upstream tr = true →
         authenticated cfg req = true
         ∧ ∃ target, resolve_target new_URL req = Target target
                     ∧ hostAllowed cfg (hostname target) = true)
  ∧ (∀ tr, tunnel_exchange cfg req head tevs = Some tr →
           existsb is_upstream tr = true →
           authenticated cfg req = true
           ∧ hostAllowed cfg (tunnel_host (req_url req)) = true)
  ∧ (authenticated cfg req = false →
     http_exchange cfg new_URL req [] = Some unauthorized
     ∧ tunnel_exchange cfg req head [] =
         Some [clientSocket_write tunnel_407; clientSocket_destroy]
     ∧ (∀ tr, http_exchange cfg new_URL req hevs = Some tr →
              existsb is_upstream tr = false)
     ∧ (∀ tr, tunnel_exchange cfg req head tevs = Some tr →
              existsb is_upstream tr = false)).
Proof.
  split; [intros tr; apply http_gate|].
  split; [intros tr; apply tunnel_gate|].
  intros Hf.
  destruct (http_unauthenticated cfg new_URL req Hf) as [H1 H2].
  destruct (tunnel_unauthenticated cfg req head Hf) as [H3 H4].
  repeat split; [exact H1 | exact H3 | apply H2 | apply H4].
Qed.

Lemma upstream_needs_both_checks_witness :
  (authenticated default_cfg get_request = true
   ∧ ∃ target, resolve_target example_URL get_request = Target target
               ∧ hostAllowed default_cfg (hostname target) = true)
  ∧ (authenticated default_cfg connect_request = true
     ∧ hostAllowed default_cfg (tunnel_host (req_url connect_request)) = true)
  ∧ http_exchange default_cfg example_URL anonymous_request [] = Some unauthorized.
Proof.
  split; [|split].
  - destruct (upstream_needs_both_checks default_cfg example_URL get_request []
                [request_end] []) as (Hgate & _ & _).
    eapply Hgate; vm_compute; reflexivity.
  - destruct (upstream_needs_both_checks default_cfg example_URL connect_request
                [1; 2] [] [connected]) as (_ & Hgate & _).
    eapply Hgate; vm_compute; reflexivity.
  - destruct (upstream_needs_both_checks default_cfg example_URL
                anonymous_request [] [] []) as (_ & _ & H407).
    apply H407. vm_compute. reflexivity.
Defined.

(** ** The tunnel relay *)

Lemma to_client_app (a b : list action) :
  to_client (a ++ b) = to_client a ++ to_client b.
Proof.
  induction a as [|x a IH]; [reflexivity|].
  destruct x; simpl; rewrite IH; try reflexivity. apply app_assoc.
Qed.

Lemma to_upstream_app (a b : list action) :
  to_upstream (a ++ b) = to_upstream a ++ to_upstream b.
Proof.
  induction a as [|x a IH]; [reflexivity|].
  destruct x; simpl; rewrite IH; try reflexivity. apply app_assoc.
Qed.

(** While both sides only send data the tunnel stays open and copies every
    chunk to the other side, unchanged and in order. *)
Lemma relaying_copies (evs : list tunnel_event) :
  forallb is_data evs = true →
  ∃ tr, tunnel_run (Relaying true) evs = Some (tr, Relaying true)
        ∧ to_client tr = from_server evs
        ∧ to_upstream tr = from_client evs.
Proof.
  induction evs as [|e evs IH]; intros Hd.
  - exists []. repeat split.
  - simpl in Hd. apply andb_true_iff in Hd as [He Hd].
    destruct (IH Hd) as (tr & Hr & Hc & Hu).
    destruct e as [| |chunk| |chunk|]; try discriminate He.
    + exists (serverSocket_write chunk :: tr).
      rewrite tunnel_run_cons. simpl tunnel_step; cbv beta iota. rewrite Hr. simpl.
      repeat split; [exact Hc | now rewrite Hu].
    + exists (clientSocket_write chunk :: tr).
      rewrite tunnel_run_cons. simpl tunnel_step; cbv beta iota. rewrite Hr. simpl.
      repeat split; [now rewrite Hc | exact Hu].
Qed.

(** C6: for an authenticated request to an allowed host whose connection
    succeeds, the proxy opens that one connection; the client socket then
    receives the bytes [HTTP/1.1 200 Connection Established], CR LF CR LF,
    and after them exactly the bytes the upstream sends; the upstream socket
    receives the buffered head first and after it exactly the bytes the
    client sends; and the tunnel is still relaying as long as neither side
    has ended. *)
Theorem tunnel_established (cfg : ProxyConfig) (req : IncomingMessage)
    (head : bytes) (p : Z) (evs : list tunnel_event)
    (Hauth : authenticated cfg req = true)
    (Hhost : hostAllowed cfg (tunnel_host (req_url req)) = true)
    (Hport : legal_port (tunnel_port (req_url req)) = Some p)
    (Hdata : forallb is_data evs = true) :
  ∃ tr,
    tunnel_exchange cfg req head (connected :: evs) =
      Some (net_connect p (tunnel_host (req_url req))
            :: clientSocket_write
                 (js "HTTP/1.1 200 Connection Established" ++ [13; 10; 13; 10])
            :: tr)
    ∧ tunnel_run (snd (on_connect cfg req head)) (connected :: evs) =
        Some (clientSocket_write
                (js "HTTP/1.1 200 Connection Established" ++ [13; 10; 13; 10])
              :: tr, Relaying true)
    ∧ to_client (clientSocket_write
                   (js "HTTP/1.1 200 Connection Established"
                    ++ [13; 10; 13; 10]) :: tr) =
        js "HTTP/1.1 200 Connection Established" ++ [13; 10; 13; 10]
        ++ from_server evs
    ∧ to_upstream tr = head ++ from_client evs.
Proof.
  destruct (relaying_copies evs Hdata) as (tr & Hr & Hc & Hu).
  assert (Hcon : on_connect cfg req head =
            ([net_connect p (tunnel_host (req_url req))], Connecting head)).
  { unfold on_connect. fold (authenticated cfg req).
    now rewrite Hauth, Hhost, Hport. }
  exists ((match head with [] => [] | _ :: _ => [serverSocket_write head] end)
          ++ tr).
  unfold tunnel_exchange. rewrite Hcon. simpl snd.
  rewrite tunnel_run_cons. simpl tunnel_step; cbv beta iota. rewrite Hr.
  split; [reflexivity|]. split; [reflexivity|]. split.
  - cbn [to_client]. rewrite to_client_app, Hc, <- app_assoc.
    now destruct head.
  - rewrite to_upstream_app, Hu. destruct head; [reflexivity|].
    simpl. now rewrite app_nil_r.
Qed.

Lemma tunnel_established_witness :
  ∃ tr,
    tunnel_exchange default_cfg connect_request [22; 3; 1]
      (connected :: [client_data [1; 0; 255]; server_data [22; 3; 3];
                     client_data [20]]) =
      Some (net_connect 8443 (js "api.example.com")
            :: clientSocket_write
                 (js "HTTP/1.1 200 Connection Established" ++ [13; 10; 13; 10])
            :: tr)
    ∧ tunnel_run (snd (on_connect default_cfg connect_request [22; 3; 1]))
        (connected :: [client_data [1; 0; 255]; server_data [22; 3; 3];
                       client_data [20]]) =
        Some (clientSocket_write
                (js "HTTP/1.1 200 Connection Established" ++ [13; 10; 13; 10])
              :: tr, Relaying true)
    ∧ to_client (clientSocket_write
                   (js "HTTP/1.1 200 Connection Established"
                    ++ [13; 10; 13; 10]) :: tr) =
        js "HTTP/1.1 200 Connection Established" ++ [13; 10; 13; 10]
        ++ [22; 3; 3]
    ∧ to_upstream tr = [22; 3; 1] ++ [1; 0; 255; 20].
Proof.
  apply (tunnel_established default_cfg connect_request [22; 3; 1] 8443%Z
           [client_data [1; 0; 255]; server_data [22; 3; 3]; client_data [20]]);
    vm_compute; reflexivity.
Defined.

(** ** The HTTP relay *)

Lemma response_heads_app (a b : list action) :
  response_heads (a ++ b) = response_heads a ++ response_heads b.
Proof.
  induction a as [|x a IH]; [reflexivity|].
  destruct x; simpl; now rewrite IH.
Qed.


Lemma http_run_app (evs1 evs2 : list http_event) :
  ∀ st tr1 st1,
    http_run st evs1 = Some (tr1, st1) →
    http_run st (evs1 ++ evs2) =
      match http_run st1 evs2 with
      | Some (tr2, st2) => Some (tr1 ++ tr2, st2)
      | None => None
      end.
Proof.
  induction evs1 as [|e evs1 IH]; intros st tr1 st1.
  - simpl. intros H. inversion H; subst.
    destruct (http_run st1 evs2) as [[tr2 st2]|]; reflexivity.
  - simpl app. rewrite !http_run_cons.
    destruct (http_step st e) as [[out st']|]; [|discriminate].
    destruct (http_run st' evs1) as [[outs st'']|] eqn:Hr; [|discriminate].
    intros H. inversion H; subst. rewrite (IH _ _ _ Hr).
    destruct (http_run st1 evs2) as [[tr2 st2]|]; [|reflexivity].
    now rewrite app_assoc.
Qed.



Lemma delete_all_lookup (names : list jsstring) :
  ∀ (hs : headers) (k : jsstring),
    delete_all names hs !! k =
      if bool_decide (k ∈ names) then None else hs !! k.
Proof.
  induction names as [|n names IH]; intros hs k.
  - reflexivity.
  - unfold delete_all in *. simpl fold_left. rewrite IH.
    destruct (decide (k = n)) as [->|Hne].
    + rewrite lookup_delete_eq.
      rewrite (bool_decide_eq_true_2 (n ∈ n :: names)) by apply list_elem_of_here.
      now destruct (bool_decide (n ∈ names)).
    + rewrite lookup_delete_ne by congruence.
      destruct (decide (k ∈ names)) as [Hin|Hnin].
      * rewrite !bool_decide_eq_true_2; [reflexivity | | exact Hin].
        now apply list_elem_of_further.
      * rewrite !bool_decide_eq_false_2; [reflexivity | | exact Hnin].
        rewrite elem_of_cons. intros [?|?]; contradiction.
Qed.

Lemma on_request_admitted (cfg : ProxyConfig) (new_URL : jsstring → option URL)
    (req : IncomingMessage) (target : URL) :
  authenticated cfg req = true →
  resolve_target new_URL req = Target target →
  hostAllowed cfg (hostname target) = true →
  protocol target = js "http:" →
  on_request cfg new_URL req =
    ([http_request target (req_method req)
        (forwarded_headers (req_headers req))], Awaiting).
Proof.
  intros Ha Ht Hh Hp. unfold on_request. fold (authenticated cfg req).
  rewrite Ha, Ht, Hh. simpl negb. cbv iota.
  now rewrite bool_decide_eq_true_2.
Qed.

Lemma on_connect_admitted (cfg : ProxyConfig) (req : IncomingMessage)
    (head : bytes) (p : Z) :
  authenticated cfg req = true →
  hostAllowed cfg (tunnel_host (req_url req)) = true →
  legal_port (tunnel_port (req_url req)) = Some p →
  on_connect cfg req head =
    ([net_connect p (tunnel_host (req_url req))], Connecting head).
Proof.
  intros Ha Hh Hp. unfold on_connect. fold (authenticated cfg req).
  now rewrite Ha, Hh, Hp.
Qed.





(** ** Failures of the upstream leg *)

Lemma tunnel_run_app (evs1 evs2 : list tunnel_event) :
  ∀ st tr1 st1,
    tunnel_run st evs1 = Some (tr1, st1) →
    tunnel_run st (evs1 ++ evs2) =
      match tunnel_run st1 evs2 with
      | Some (tr2, st2) => Some (tr1 ++ tr2, st2)
      | None => None
      end.
Proof.
  induction evs1 as [|e evs1 IH]; intros st tr1 st1.
  - simpl. intros H. inversion H; subst.
    destruct (tunnel_run st1 evs2) as [[tr2 st2]|]; reflexivity.
  - simpl app. rewrite !tunnel_run_cons.
    destruct (tunnel_step st e) as [[out st']|]; [|discriminate].
    destruct (tunnel_run st' evs1) as [[outs st'']|] eqn:Hr; [|discriminate].
    intros H. inversion H; subst. rewrite (IH _ _ _ Hr).
    destruct (tunnel_run st1 evs2) as [[tr2 st2]|]; [|reflexivity].
    now rewrite app_assoc.
Qed.

(** C8: the claim wants a 502 for a transport error in the middle of the
    transfer.  In the HTTP relay the error handler does call
    [res.writeHead(502)], but once the upstream head (here 200) has been
    relayed that call throws ERR_HTTP_HEADERS_SENT, which nobody catches: the
    client has received status 200 and part of the body, and no 502. *)
Theorem late_error_no_502 :
  match http_exchange default_cfg example_URL get_request
          [upstream_response 200 ∅; response_data (js "{"); upstream_error]
  with
  | Some tr =>
      map fst (response_heads tr) = [200%Z]
      ∧ response_body tr = js "{"
      ∧ last tr = Some (uncaught "ERR_HTTP_HEADERS_SENT")
  | None => False
  end.
Proof. vm_compute. repeat split; reflexivity. Qed.

(** Before any response head has been relayed the failure of the upstream
    leg is answered: for an authenticated request to an allowed host, an
    upstream error while the HTTP relay still waits for the response head
    (the connection fails, or an error occurs while the request is being
    sent) makes it answer 502 with the body [Bad Gateway] and ends the
    exchange; in the tunnel relay an error of the upstream socket, while
    connecting or while relaying, makes the proxy write the line
    [HTTP/1.1 502 Bad Gateway], CR LF CR LF, on the client socket and
    destroy it.  In both, no event is handled afterwards and the whole trace
    holds the one call that opened the upstream leg: nothing is retried. *)
Theorem upstream_failure_502 (cfg : ProxyConfig)
    (new_URL : jsstring → option URL) (req : IncomingMessage) (head : bytes)
    (Hauth : authenticated cfg req = true) :
  (∀ target hevs htr,
     resolve_target new_URL req = Target target →
     hostAllowed cfg (hostname target) = true →
     protocol target = js "http:" →
     http_run Awaiting hevs = Some (htr, Awaiting) →
     ∃ tr,
       http_exchange cfg new_URL req (hevs ++ [upstream_error]) = Some tr
       ∧ tr = http_request target (req_method req)
                (forwarded_headers (req_headers req))
              :: htr
              ++ [console_error; res_writeHead 502 ∅;
                  res_end (js "Bad Gateway")]
       ∧ http_run (snd (on_request cfg new_URL req)) (hevs ++ [upstream_error])
         = Some (htr ++ [console_error; res_writeHead 502 ∅;
                         res_end (js "Bad Gateway")], HttpDone)
       ∧ (∀ e, http_step HttpDone e = None)
       ∧ opened tr = [http_request target (req_method req)
                        (forwarded_headers (req_headers req))])
  ∧ (∀ p tevs ttr tst,
       hostAllowed cfg (tunnel_host (req_url req)) = true →
       legal_port (tunnel_port (req_url req)) = Some p →
       tunnel_run (Connecting head) tevs = Some (ttr, tst) →
       tst ≠ Closed →
       ∃ tr,
         tunnel_exchange cfg req head (tevs ++ [serverSocket_error]) = Some tr
         ∧ tr = net_connect p (tunnel_host (req_url req))
                :: ttr
                ++ [console_error;
                    clientSocket_write
                      (js "HTTP/1.1 502 Bad Gateway" ++ [13; 10; 13; 10]);
                    clientSocket_destroy]
         ∧ tunnel_run (snd (on_connect cfg req head))
             (tevs ++ [serverSocket_error])
           = Some (ttr ++ [console_error;
                           clientSocket_write
                             (js "HTTP/1.1 502 Bad Gateway"
                              ++ [13; 10; 13; 10]);
                           clientSocket_destroy], Closed)
         ∧ (∀ e, tunnel_step Closed e = None)
         ∧ opened tr = [net_connect p (tunnel_host (req_url req))]).
Proof.
  split.
  - intros target hevs htr Ht Hh Hproto Hr.
    pose proof (on_request_admitted _ _ _ _ Hauth Ht Hh Hproto) as Hreq.
    pose proof (http_run_app _ [upstream_error] _ _ _ Hr) as Happ.
    simpl in Happ. eexists. unfold http_exchange. rewrite Hreq. simpl snd.
    rewrite Happ.
    split; [reflexivity|]. split; [reflexivity|]. split; [reflexivity|].
    split; [intros e; now destruct e|].
    simpl. rewrite opened_app, (http_run_opens_nothing _ _ _ _ Hr). reflexivity.
  - intros p tevs ttr tst Hh Hp Hr Hopen.
    pose proof (on_connect_admitted _ _ head _ Hauth Hh Hp) as Hcon.
    pose proof (tunnel_run_app _ [serverSocket_error] _ _ _ Hr) as Happ.
    assert (Hstep : tunnel_run tst [serverSocket_error] =
                      Some (tunnel_bad_gateway, Closed))
      by (destruct tst as [?|[]|]; first [reflexivity | congruence]).
    rewrite Hstep in Happ.
    eexists. unfold tunnel_exchange. rewrite Hcon. simpl snd.
    rewrite Happ.
    split; [reflexivity|]. split; [reflexivity|]. split; [reflexivity|].
    split; [intros e; now destruct e|].
    simpl. rewrite opened_app, (tunnel_run_opens_nothing _ _ _ _ Hr). reflexivity.
Qed.

Lemma upstream_failure_502_witness :
  (∃ tr,
     http_exchange default_cfg example_URL get_request
       ([request_data (js "x"); request_end] ++ [upstream_error]) = Some tr
     ∧ map fst (response_heads tr) = [502%Z])
  ∧ (∃ tr,
       tunnel_exchange default_cfg connect_request []
         ([] ++ [serverSocket_error]) = Some tr
       ∧ to_client tr = js "HTTP/1.1 502 Bad Gateway" ++ [13; 10; 13; 10]).
Proof.
  destruct (upstream_failure_502 default_cfg example_URL get_request [] eq_refl)
    as [Hhttp _].
  destruct (upstream_failure_502 default_cfg example_URL connect_request []
              eq_refl) as [_ Htunnel].
  split.
  - destruct (Hhttp {| href := js "http://api.example.com/data";
                       protocol := js "http:";
                       hostname := js "api.example.com" |}
                [request_data (js "x"); request_end]
                [upstream_write (js "x"); upstream_end]
                eq_refl eq_refl eq_refl eq_refl) as (tr & Hex & -> & _).
    eexists. split; [exact Hex | reflexivity].
  - destruct (Htunnel 8443%Z [] [] (Connecting []) eq_refl eq_refl eq_refl)
      as (tr & Hex & -> & _); [discriminate|].
    eexists. split; [exact Hex | reflexivity].
Defined.

(** * Further properties of the code *)

(** ** Encoding and decoding a credential *)

Lemma N_below_in_seq (n : nat) (v : N) :
  v < N.of_nat n → In v (map N.of_nat (seq 0 n)).
Proof.
  intros H. apply in_map_iff. exists (N.to_nat v). split; [apply N2Nat.id|].
  apply in_seq. lia.
Qed.

Lemma base64_char_table :
  forallb (fun v =>
             match unbase64 (base64_char v) with
             | Some v' => v' =? v
             | None => false
             end
             && negb (base64_char v =? 61)
             && negb (is_space (base64_char v))
             && is_dot (base64_char v))
    (map N.of_nat (seq 0 64)) = true.
Proof. vm_compute. reflexivity. Qed.

Lemma base64_char_ok (v : N) :
  v < 64 →
  unbase64 (base64_char v) = Some v
  ∧ (base64_char v =? 61) = false
  ∧ is_space (base64_char v) = false
  ∧ is_dot (base64_char v) = true.
Proof.
  intros H. pose proof base64_char_table as T.
  rewrite forallb_forall in T.
  specialize (T v (N_below_in_seq 64 v H)).
  repeat (apply andb_true_iff in T as [T ?]).
  destruct (unbase64 (base64_char v)) as [v'|]; [|discriminate].
  apply N.eqb_eq in T as ->.
  repeat split; try assumption; now apply negb_true_iff.
Qed.

Lemma sextets_char (v : N) (s : jsstring) :
  v < 64 → sextets (base64_char v :: s) = v :: sextets s.
Proof.
  intros H. destruct (base64_char_ok v H) as (Hu & He & _).
  simpl. now rewrite He, Hu.
Qed.

Lemma sextet_bounds (a b c : N) :
  a < 256 → b < 256 → c < 256 →
  a / 4 < 64 ∧ (a mod 4) * 16 + b / 16 < 64
  ∧ (b mod 16) * 4 + c / 64 < 64 ∧ c mod 64 < 64
  ∧ (a mod 4) * 16 < 64 ∧ (b mod 16) * 4 < 64.
Proof.
  intros Ha Hb Hc.
  pose proof (N.mod_upper_bound a 4). pose proof (N.mod_upper_bound b 16).
  pose proof (N.mod_upper_bound c 64).
  assert (a / 4 < 64) by (apply N.Div0.div_lt_upper_bound; lia).
  assert (b / 16 < 16) by (apply N.Div0.div_lt_upper_bound; lia).
  assert (c / 64 < 4) by (apply N.Div0.div_lt_upper_bound; lia).
  lia.
Qed.

(** The three bytes come back from their four sextets. *)
Lemma sextets_to_bytes (a b c : N) :
  b < 256 → c < 256 →
  a / 4 * 4 + ((a mod 4) * 16 + b / 16) / 16 = a
  ∧ (((a mod 4) * 16 + b / 16) mod 16) * 16 + ((b mod 16) * 4 + c / 64) / 4 = b
  ∧ (((b mod 16) * 4 + c / 64) mod 4) * 64 + c mod 64 = c.
Proof.
  intros Hb Hc.
  assert (Hb16 : b / 16 < 16) by (apply N.Div0.div_lt_upper_bound; lia).
  assert (Hc64 : c / 64 < 4) by (apply N.Div0.div_lt_upper_bound; lia).
  assert (E1 : ((a mod 4) * 16 + b / 16) / 16 = a mod 4)
    by (rewrite N.div_add_l, (N.div_small _ _ Hb16) by lia; lia).
  assert (E2 : ((a mod 4) * 16 + b / 16) mod 16 = b / 16)
    by (rewrite N.add_comm, N.Div0.mod_add; now apply N.mod_small).
  assert (E3 : ((b mod 16) * 4 + c / 64) / 4 = b mod 16)
    by (rewrite N.div_add_l, (N.div_small _ _ Hc64) by lia; lia).
  assert (E4 : ((b mod 16) * 4 + c / 64) mod 4 = c / 64)
    by (rewrite N.add_comm, N.Div0.mod_add; now apply N.mod_small).
  rewrite E1, E2, E3, E4.
  pose proof (N.Div0.div_mod a 4). pose proof (N.Div0.div_mod b 16).
  pose proof (N.Div0.div_mod c 64). lia.
Qed.

Lemma list_ind3 {A} (P : list A → Prop) :
  P [] → (∀ a, P [a]) → (∀ a b, P [a; b]) →
  (∀ a b c l, P l → P (a :: b :: c :: l)) →
  ∀ l, P l.
Proof.
  intros H0 H1 H2 H3. fix IH 1.
  intros [|a [|b [|c l]]]; [exact H0 | apply H1 | apply H2 | apply H3, IH].
Qed.

(** Decoding undoes encoding, for every sequence of bytes. *)
Lemma decode_encode (bs : bytes) :
  Forall (fun b => b < 256) bs →
  Buffer_from_base64 (base64_encode bs) = bs.
Proof.
  unfold Buffer_from_base64.
  induction bs as [|a|a b|a b c l IH] using list_ind3; intros HF.
  - reflexivity.
  - inversion HF as [|? ? Ha _]; subst.
    destruct (sextet_bounds a 0 0 Ha) as (B1 & _ & _ & _ & B5 & _); [lia..|].
    change (base64_encode [a])
      with [base64_char (a / 4); base64_char ((a mod 4) * 16); 61; 61].
    rewrite !sextets_char by assumption.
    change (sextets [61; 61]) with (@nil N).
    change (bytes_of_sextets [a / 4; (a mod 4) * 16])
      with [a / 4 * 4 + (a mod 4) * 16 / 16].
    rewrite N.div_mul by lia.
    pose proof (N.Div0.div_mod a 4). f_equal. lia.
  - inversion HF as [|? ? Ha HF']; subst.
    inversion HF' as [|? ? Hb _]; subst.
    destruct (sextet_bounds a b 0 Ha Hb) as (B1 & B2 & _ & _ & _ & B6); [lia|].
    destruct (sextets_to_bytes a b 0 Hb) as (E1 & E2 & _); [lia|].
    change (0 / 64) with 0 in E2. rewrite N.add_0_r in E2.
    change (base64_encode [a; b])
      with [base64_char (a / 4); base64_char ((a mod 4) * 16 + b / 16);
            base64_char ((b mod 16) * 4); 61].
    rewrite !sextets_char by assumption.
    change (sextets [61]) with (@nil N).
    change (bytes_of_sextets [a / 4; (a mod 4) * 16 + b / 16; (b mod 16) * 4])
      with [a / 4 * 4 + ((a mod 4) * 16 + b / 16) / 16;
            (((a mod 4) * 16 + b / 16) mod 16) * 16 + (b mod 16) * 4 / 4].
    now rewrite E1, E2.
  - inversion HF as [|? ? Ha HF']; subst.
    inversion HF' as [|? ? Hb HF'']; subst.
    inversion HF'' as [|? ? Hc HFl]; subst.
    destruct (sextet_bounds a b c Ha Hb Hc) as (B1 & B2 & B3 & B4 & _).
    destruct (sextets_to_bytes a b c Hb Hc) as (E1 & E2 & E3).
    change (base64_encode (a :: b :: c :: l))
      with (base64_char (a / 4) :: base64_char ((a mod 4) * 16 + b / 16)
            :: base64_char ((b mod 16) * 4 + c / 64) :: base64_char (c mod 64)
            :: base64_encode l).
    rewrite !sextets_char by assumption.
    change (bytes_of_sextets
              (a / 4 :: (a mod 4) * 16 + b / 16 :: (b mod 16) * 4 + c / 64
               :: c mod 64 :: sextets (base64_encode l)))
      with ((a / 4 * 4 + ((a mod 4) * 16 + b / 16) / 16)
            :: ((((a mod 4) * 16 + b / 16) mod 16) * 16
                + ((b mod 16) * 4 + c / 64) / 4)
            :: ((((b mod 16) * 4 + c / 64) mod 4) * 64 + c mod 64)
            :: bytes_of_sextets (sextets (base64_encode l))).
    now rewrite E1, E2, E3, (IH HFl).
Qed.

(** An encoding is never empty unless the bytes are, has no blank and no
    line terminator. *)
Lemma base64_encode_shape (bs : bytes) :
  Forall (fun b => b < 256) bs →
  forallb is_dot (base64_encode bs) = true
  ∧ match base64_encode bs with
    | c :: _ => is_space c = false
    | [] => bs = []
    end.
Proof.
  induction bs as [|a|a b|a b c l IH] using list_ind3; intros HF.
  - split; reflexivity.
  - inversion HF as [|? ? Ha _]; subst.
    destruct (sextet_bounds a 0 0 Ha) as (B1 & _ & _ & _ & B5 & _); [lia..|].
    destruct (base64_char_ok _ B1) as (_ & _ & S1 & D1).
    destruct (base64_char_ok _ B5) as (_ & _ & _ & D2).
    change (base64_encode [a])
      with [base64_char (a / 4); base64_char ((a mod 4) * 16); 61; 61].
    split; [|exact S1]. simpl. now rewrite D1, D2.
  - inversion HF as [|? ? Ha HF']; subst.
    inversion HF' as [|? ? Hb _]; subst.
    destruct (sextet_bounds a b 0 Ha Hb) as (B1 & B2 & _ & _ & _ & B6); [lia|].
    destruct (base64_char_ok _ B1) as (_ & _ & S1 & D1).
    destruct (base64_char_ok _ B2) as (_ & _ & _ & D2).
    destruct (base64_char_ok _ B6) as (_ & _ & _ & D3).
    change (base64_encode [a; b])
      with [base64_char (a / 4); base64_char ((a mod 4) * 16 + b / 16);
            base64_char ((b mod 16) * 4); 61].
    split; [|exact S1]. simpl. now rewrite D1, D2, D3.
  - inversion HF as [|? ? Ha HF']; subst.
    inversion HF' as [|? ? Hb HF'']; subst.
    inversion HF'' as [|? ? Hc HFl]; subst.
    destruct (sextet_bounds a b c Ha Hb Hc) as (B1 & B2 & B3 & B4 & _).
    destruct (base64_char_ok _ B1) as (_ & _ & S1 & D1).
    destruct (base64_char_ok _ B2) as (_ & _ & _ & D2).
    destruct (base64_char_ok _ B3) as (_ & _ & _ & D3).
    destruct (base64_char_ok _ B4) as (_ & _ & _ & D4).
    destruct (IH HFl) as [IHd _].
    change (base64_encode (a :: b :: c :: l))
      with (base64_char (a / 4) :: base64_char ((a mod 4) * 16 + b / 16)
            :: base64_char ((b mod 16) * 4 + c / 64) :: base64_char (c mod 64)
            :: base64_encode l).
    split; [|exact S1]. simpl. now rewrite D1, D2, D3, D4, IHd.
Qed.

(** ASCII bytes are decoded as themselves. *)
Lemma toString_ascii (bs : bytes) :
  forallb is_ascii bs = true → Buffer_toString bs = bs.
Proof.
  unfold Buffer_toString.
  induction bs as [|b bs IH]; intros H; [reflexivity|].
  simpl in H. apply andb_true_iff in H as [Hb Hbs].
  unfold is_ascii in Hb. apply N.leb_le in Hb.
  simpl utf8_run. unfold utf8_lead.
  destruct (N.leb_spec b 0x7F) as [_|?]; [|lia].
  simpl. rewrite (IH Hbs). unfold utf16.
  destruct (N.ltb_spec b 0x10000) as [_|?]; [reflexivity | lia].
Qed.

(** ** What the verifier accepts *)

Lemma ci_prefix_app (word scheme s : jsstring) :
  Forall2 (fun p x => ci_eq p x = true) word scheme →
  ci_prefix word (scheme ++ s) = Some s.
Proof.
  induction 1 as [|p x word scheme Hpx _ IH]; [reflexivity|].
  simpl. now rewrite Hpx.
Qed.

Lemma blanks_then_capture_payload (blanks : jsstring) (c : code_unit)
    (rest : jsstring) :
  forallb is_space blanks = true →
  is_space c = false →
  forallb is_dot (c :: rest) = true →
  blanks_then_capture (blanks ++ c :: rest) = Some (c :: rest).
Proof.
  intros Hb Hc Hd. induction blanks as [|b blanks IH].
  - simpl app. unfold blanks_then_capture. rewrite Hc.
    unfold capture_rest. now rewrite Hd.
  - simpl in Hb. apply andb_true_iff in Hb as [Hb Hbs].
    simpl. now rewrite Hb, (IH Hbs).
Qed.

(** The scheme is accepted in any letter case and after it any number of
    blanks, at least one: the payload is what follows them, when it starts
    with a character that is not a blank and holds no line terminator. *)
Theorem match_basic_accepts (scheme blanks : jsstring) (b c : code_unit)
    (rest : jsstring)
    (Hscheme : Forall2 (fun p x => ci_eq p x = true) (js "basic") scheme)
    (Hblanks : forallb is_space (b :: blanks) = true)
    (Hc : is_space c = false)
    (Hdot : forallb is_dot (c :: rest) = true) :
  match_basic (scheme ++ (b :: blanks) ++ c :: rest) = Some (c :: rest).
Proof.
  unfold match_basic. rewrite (ci_prefix_app _ _ _ Hscheme).
  simpl in Hblanks. apply andb_true_iff in Hblanks as [Hb Hbs].
  change ((b :: blanks) ++ c :: rest) with (b :: (blanks ++ c :: rest)).
  cbv beta iota. rewrite Hb. now apply blanks_then_capture_payload.
Qed.

Lemma match_basic_accepts_witness :
  match_basic (js "BASIC" ++ [32; 9; 32] ++ js "dXNlcjpwYXNz")
  = Some (js "dXNlcjpwYXNz").
Proof.
  apply (match_basic_accepts (js "BASIC") [9; 32] 32 100 (js "XNlcjpwYXNz")).
  - repeat constructor.
  - reflexivity.
  - reflexivity.
  - reflexivity.
Defined.

Lemma match_basic_encoded (bs : bytes) :
  bs ≠ [] → Forall (fun b => b < 256) bs →
  match_basic (js "Basic " ++ base64_encode bs) = Some (base64_encode bs).
Proof.
  intros Hne HF. destruct (base64_encode_shape bs HF) as [Hd Hs].
  destruct (base64_encode bs) as [|c rest] eqn:He; [congruence|].
  change (js "Basic " ++ c :: rest) with (js "Basic" ++ [32] ++ c :: rest).
  apply match_basic_accepts; [repeat constructor | reflexivity | exact Hs | exact Hd].
Qed.

Lemma ascii_bytes (s : jsstring) :
  forallb is_ascii s = true → Forall (fun b => b < 256) s.
Proof.
  intros H. apply Forall_forall. intros b Hb. apply list_elem_of_In in Hb.
  rewrite forallb_forall in H. specialize (H b Hb).
  unfold is_ascii in H. apply N.leb_le in H. lia.
Qed.

(** A client that encodes the configured pair is let in: for an ASCII user
    name and password without a colon, the header [Basic base64(user:pass)]
    verifies. *)
Theorem encoded_credential_verifies (cfg : ProxyConfig)
    (Huser : COLON ∉ PROXY_USER cfg) (Hpass : COLON ∉ PROXY_PASS cfg)
    (Hu : forallb is_ascii (PROXY_USER cfg) = true)
    (Hp : forallb is_ascii (PROXY_PASS cfg) = true) :
  checkBasicAuth cfg (Some (basic_header (PROXY_USER cfg) (PROXY_PASS cfg)))
  = true.
Proof.
  set (cred := PROXY_USER cfg ++ COLON :: PROXY_PASS cfg).
  assert (Ha : forallb is_ascii cred = true).
  { unfold cred. rewrite forallb_app. simpl. now rewrite Hu, Hp. }
  assert (Hm : match_basic (basic_header (PROXY_USER cfg) (PROXY_PASS cfg))
               = Some (base64_encode cred)).
  { apply match_basic_encoded; [|now apply ascii_bytes].
    unfold cred. now destruct (PROXY_USER cfg). }
  rewrite (checkBasicAuth_match _ _ _ Hm). unfold decoded_credential.
  rewrite (decode_encode _ (ascii_bytes _ Ha)), (toString_ascii _ Ha).
  unfold cred. rewrite (split_app_sep _ _ _ Huser), (split_no_sep _ _ Hpass).
  simpl. now rewrite !bool_decide_eq_true_2.
Qed.

Lemma encoded_credential_verifies_witness :
  checkBasicAuth default_cfg (Some (basic_header (js "proxyuser") (js "proxypass")))
  = true.
Proof.
  apply (encoded_credential_verifies default_cfg);
    first [reflexivity | apply (bool_decide_unpack _); vm_compute; exact I].
Defined.

Lemma join_cons (sep : code_unit) (w : jsstring) (ws : list jsstring) :
  ws ≠ [] → join sep (w :: ws) = w ++ sep :: join sep ws.
Proof. destruct ws; [congruence | reflexivity]. Qed.

(** Joining the pieces gives the string back. *)
Lemma join_split (sep : code_unit) (s : jsstring) :
  join sep (split sep s) = s.
Proof.
  induction s as [|c s IH]; [reflexivity|].
  rewrite split_cons_eq. pose proof (split_not_nil sep s) as Hne.
  destruct (N.eqb_spec c sep) as [->|_].
  - now rewrite (join_cons _ _ _ Hne), IH.
  - destruct (split sep s) as [|w ws]; [congruence|].
    destruct ws as [|w' ws].
    + simpl in *. now rewrite IH.
    + rewrite join_cons by discriminate.
      rewrite join_cons in IH by discriminate.
      now rewrite <- IH.
Qed.

(** Whatever verifies decodes to the configured [user:pass], alone or
    followed by a colon and anything. *)
Theorem verified_credential_shape (cfg : ProxyConfig)
    (header : option jsstring)
    (Hok : checkBasicAuth cfg header = true) :
  ∃ h m1 tail,
    header = Some h ∧ match_basic h = Some m1
    ∧ decoded_credential m1 = PROXY_USER cfg ++ COLON :: PROXY_PASS cfg ++ tail
    ∧ (tail = [] ∨ ∃ t, tail = COLON :: t).
Proof.
  destruct header as [h|]; [|discriminate].
  destruct (match_basic h) as [m1|] eqn:Hm;
    [|now rewrite checkBasicAuth_no_match in Hok].
  rewrite (checkBasicAuth_match _ _ _ Hm) in Hok.
  apply andb_true_iff in Hok as [Hu Hp].
  pose proof (join_split COLON (decoded_credential m1)) as Hj.
  destruct (split COLON (decoded_credential m1)) as [|u [|p more]];
    try discriminate.
  simpl in Hu, Hp.
  apply bool_decide_eq_true in Hu, Hp. subst u p.
  rewrite join_cons in Hj by discriminate.
  exists h, m1. destruct more as [|w more].
  - exists []. simpl in Hj. rewrite app_nil_r.
    split; [reflexivity|]. split; [exact Hm|].
    split; [now rewrite <- Hj | now left].
  - exists (COLON :: join COLON (w :: more)).
    rewrite join_cons in Hj by discriminate.
    split; [reflexivity|]. split; [exact Hm|].
    split; [now rewrite <- Hj | right; eauto].
Qed.

Lemma verified_credential_shape_witness :
  ∃ h m1 tail,
    Some (js "Basic cHJveHl1c2VyOnByb3h5cGFzcw==") = Some h
    ∧ match_basic h = Some m1
    ∧ decoded_credential m1 =
        PROXY_USER default_cfg ++ COLON :: PROXY_PASS default_cfg ++ tail
    ∧ (tail = [] ∨ ∃ t, tail = COLON :: t).
Proof.
  apply (verified_credential_shape default_cfg
           (Some (js "Basic cHJveHl1c2VyOnByb3h5cGFzcw=="))).
  reflexivity.
Defined.

(** What follows a second colon is not looked at: with a user name and a
    password without colons, every credential that decodes to [user:pass] or
    to [user:pass:anything] verifies. *)
Theorem trailing_pieces_ignored (cfg : ProxyConfig) (h m1 tail : jsstring)
    (Huser : COLON ∉ PROXY_USER cfg) (Hpass : COLON ∉ PROXY_PASS cfg)
    (Hm : match_basic h = Some m1)
    (Hd : decoded_credential m1 =
            PROXY_USER cfg ++ COLON :: PROXY_PASS cfg ++ tail)
    (Htail : tail = [] ∨ ∃ t, tail = COLON :: t) :
  checkBasicAuth cfg (Some h) = true.
Proof.
  rewrite (checkBasicAuth_match _ _ _ Hm), Hd.
  rewrite (split_app_sep _ _ _ Huser).
  destruct Htail as [->|[t ->]].
  - rewrite app_nil_r, (split_no_sep _ _ Hpass). simpl.
    now rewrite !bool_decide_eq_true_2.
  - rewrite (split_app_sep _ _ _ Hpass). simpl.
    now rewrite !bool_decide_eq_true_2.
Qed.

Lemma trailing_pieces_ignored_witness :
  decoded_credential (js "cHJveHl1c2VyOnByb3h5cGFzczpqdW5r")
  = js "proxyuser:proxypass:junk"
  ∧ checkBasicAuth default_cfg
      (Some (js "Basic cHJveHl1c2VyOnByb3h5cGFzczpqdW5r")) = true.
Proof.
  split; [reflexivity|].
  apply (trailing_pieces_ignored default_cfg
           (js "Basic cHJveHl1c2VyOnByb3h5cGFzczpqdW5r")
           (js "cHJveHl1c2VyOnByb3h5cGFzczpqdW5r") (js ":junk")).
  - apply (bool_decide_unpack _). vm_compute. exact I.
  - apply (bool_decide_unpack _). vm_compute. exact I.
  - reflexivity.
  - reflexivity.
  - right. eexists. reflexivity.
Defined.

(** ** What the authorizer accepts *)

Lemma hostAllowed_exact_witness :
  hostAllowed v6_cfg (js "api.example.com") = true
  ∧ hostAllowed v6_cfg (js "api.example.com:8443") = true
  ∧ hostAllowed v6_cfg (js "API.example.com") = false.
Proof.
  destruct (hostAllowed_exact v6_cfg (js "api.example.com") (js "8443"))
    as [H1 H2]; [discriminate | apply (bool_decide_unpack _); vm_compute; exact I|].
  destruct (hostAllowed_exact v6_cfg (js "API.example.com") [])
    as [H3 _]; [discriminate | apply (bool_decide_unpack _); vm_compute; exact I|].
  change (js "api.example.com:8443")
    with (js "api.example.com" ++ COLON :: js "8443").
  rewrite H1, H2, H3. repeat split.
Defined.

(** With a list, the names let through are exactly the entries without a
    colon, alone or followed by a colon and anything. *)
Theorem hostAllowed_accepts (cfg : ProxyConfig) (hostname : jsstring) :
  hostAllowed cfg hostname = true ↔
  (WHITELIST cfg = []
   ∨ (∃ entry, entry ∈ WHITELIST cfg ∧ (COLON ∉ entry)
               ∧ (hostname = entry
                  ∨ (∃ rest, hostname = entry ++ COLON :: rest)))).
Proof.
  split.
  - unfold hostAllowed. destruct (WHITELIST cfg) as [|w ws] eqn:Hw; [now left|].
    intros Hin%bool_decide_eq_true. right.
    pose proof (join_split COLON hostname) as Hj.
    pose proof (split_lookup_no_sep COLON hostname) as Hc.
    pose proof (split_not_nil COLON hostname) as Hsn.
    destruct (split COLON hostname) as [|u more]; [congruence|].
    simpl in Hin. exists u. split; [exact Hin|].
    split; [exact (Hc u 0%nat eq_refl)|].
    destruct more as [|m more]; [now left|].
    rewrite join_cons in Hj by discriminate. right. eauto.
  - intros [Hnil|(entry & Hin & Hc & Hshape)].
    + unfold hostAllowed. now rewrite Hnil.
    + assert (Hne : WHITELIST cfg ≠ []) by (intros E; rewrite E in Hin; inversion Hin).
      destruct Hshape as [->|[rest ->]].
      * destruct (hostAllowed_exact cfg entry [] Hne Hc) as [-> _].
        now apply bool_decide_eq_true.
      * destruct (hostAllowed_exact cfg entry rest Hne Hc) as [_ ->].
        now apply bool_decide_eq_true.
Qed.

Lemma hostAllowed_accepts_witness :
  hostAllowed v6_cfg (js "api.example.com:8443") = true.
Proof.
  apply (hostAllowed_accepts v6_cfg (js "api.example.com:8443")).
  right. exists (js "api.example.com").
  split; [apply (bool_decide_unpack _); vm_compute; exact I|].
  split; [apply (bool_decide_unpack _); vm_compute; exact I|].
  right. exists (js "8443"). reflexivity.
Defined.

(** An entry with a colon in it (a host with a port, an IPv6 literal) lets
    nothing through: a list made of such entries refuses every name. *)
Theorem colon_entries_refuse_all (cfg : ProxyConfig) (hostname : jsstring)
    (Hne : WHITELIST cfg ≠ [])
    (Hcolon : Forall (fun entry => COLON ∈ entry) (WHITELIST cfg)) :
  hostAllowed cfg hostname = false.
Proof.
  apply not_true_is_false. intros Hok.
  apply hostAllowed_accepts in Hok as [Hnil|(entry & Hin & Hc & _)];
    [contradiction|].
  rewrite Forall_forall in Hcolon. exact (Hc (Hcolon entry Hin)).
Qed.

Lemma colon_entries_refuse_all_witness :
  hostAllowed {| PROXY_USER := js "u"; PROXY_PASS := js "p";
                 WHITELIST := [js "example.com:8080"; js "[::1]"] |}
    (js "example.com:8080") = false.
Proof.
  apply colon_entries_refuse_all; [discriminate|].
  repeat constructor; apply (bool_decide_unpack _); vm_compute; exact I.
Defined.

(** ** The configuration read at start-up *)

Lemma trim_start_suffix (s : jsstring) :
  ∃ blanks, s = blanks ++ trim_start s ∧ forallb is_space blanks = true.
Proof.
  induction s as [|c s (blanks & IH & Hb)]; [now exists []|].
  simpl. destruct (is_space c) eqn:Hc.
  - exists (c :: blanks). simpl. rewrite Hc, Hb. split; [now f_equal | reflexivity].
  - now exists [].
Qed.

Lemma trim_start_head (s r : jsstring) (c : code_unit) :
  trim_start s = c :: r → is_space c = false.
Proof.
  induction s as [|x s IH]; [discriminate|]. simpl.
  destruct (is_space x) eqn:Hx; [exact IH|].
  intros H. now inversion H; subst.
Qed.

Lemma trim_start_blank (s : jsstring) :
  forallb is_space s = true → trim_start s = [].
Proof.
  induction s as [|c s IH]; [reflexivity|]. simpl.
  intros [Hc Hs]%andb_true_iff. rewrite Hc. now apply IH.
Qed.

Lemma trim_start_id (s : jsstring) :
  (∀ c, head s = Some c → is_space c = false) → trim_start s = s.
Proof.
  destruct s as [|c s]; [reflexivity|]. intros H. simpl.
  now rewrite (H c eq_refl).
Qed.

(** What [trim] keeps is a stretch of the string, after blanks only. *)
Lemma trim_inside (s : jsstring) :
  ∃ before after, s = before ++ trim s ++ after
                  ∧ forallb is_space before = true.
Proof.
  destruct (trim_start_suffix s) as (before & Hs & Hb).
  destruct (trim_start_suffix (reverse (trim_start s))) as (after & Hr & _).
  exists before, (reverse after). split; [|exact Hb].
  unfold trim. rewrite <- reverse_app, <- Hr, reverse_involutive. exact Hs.
Qed.

Lemma trim_prefix (s : jsstring) :
  ∃ after, trim_start s = trim s ++ after.
Proof.
  destruct (trim_start_suffix (reverse (trim_start s))) as (after & Hr & _).
  exists (reverse after). unfold trim.
  now rewrite <- reverse_app, <- Hr, reverse_involutive.
Qed.

Lemma trim_id (s : jsstring) :
  (∀ c, head s = Some c → is_space c = false) →
  (∀ c, last s = Some c → is_space c = false) →
  trim s = s.
Proof.
  intros Hh Hl. unfold trim. rewrite (trim_start_id s Hh).
  rewrite trim_start_id; [apply reverse_involutive|].
  intros c Hc. rewrite head_reverse in Hc. now apply Hl.
Qed.

Lemma elem_of_join (sep c : code_unit) (ws : list jsstring) (w : jsstring) :
  w ∈ ws → c ∈ w → c ∈ join sep ws.
Proof.
  induction ws as [|x ws IH]; intros Hw Hc; [inversion Hw|].
  destruct ws as [|y ws].
  - apply list_elem_of_singleton in Hw as ->. exact Hc.
  - rewrite join_cons by discriminate. apply elem_of_app.
    apply elem_of_cons in Hw as [->|Hw]; [now left|].
    right. apply elem_of_cons. right. now apply IH.
Qed.

Lemma split_join_inverse (sep : code_unit) (ws : list jsstring) :
  ws ≠ [] → Forall (fun w => sep ∉ w) ws → split sep (join sep ws) = ws.
Proof.
  induction ws as [|w ws IH]; [congruence|]. intros _ HF.
  inversion HF as [|? ? Hw HFs]; subst.
  destruct ws as [|w' ws]; [now apply split_no_sep|].
  rewrite join_cons by discriminate.
  rewrite (split_app_sep _ _ _ Hw), IH; [reflexivity | discriminate | exact HFs].
Qed.

(** Every entry of the list read from [WHITELIST_HOSTS] is non-empty, holds
    no comma, and neither starts nor ends with a blank. *)
Theorem parse_whitelist_entries (v : option jsstring) (entry : jsstring)
    (Hin : entry ∈ parse_whitelist v) :
  entry ≠ [] ∧ (COMMA ∉ entry)
  ∧ (∀ c, head entry = Some c → is_space c = false)
  ∧ (∀ c, last entry = Some c → is_space c = false).
Proof.
  unfold parse_whitelist in Hin. apply list_elem_of_In in Hin.
  apply filter_In in Hin as [Hin Hne]. apply in_map_iff in Hin as (w & <- & Hw).
  apply list_elem_of_In in Hw.
  pose proof (split_pieces COMMA (or_default v [])) as HF.
  rewrite Forall_forall in HF. specialize (HF w Hw).
  destruct (trim_inside w) as (before & after & Hparts & _).
  repeat split.
  - intros E. now rewrite E in Hne.
  - intros Hc. apply HF. rewrite Hparts, !elem_of_app. auto.
  - intros c Hc. destruct (trim_prefix w) as [rest Hp].
    destruct (trim w) as [|x r]; [discriminate|].
    simpl in Hc. inversion Hc; subst.
    exact (trim_start_head _ _ _ Hp).
  - intros c Hc. unfold trim in Hc. rewrite last_reverse in Hc.
    destruct (trim_start (reverse (trim_start w))) as [|x r] eqn:E;
      [discriminate|].
    simpl in Hc. inversion Hc; subst. exact (trim_start_head _ _ _ E).
Qed.

Lemma parse_whitelist_entries_witness :
  js "b.example" ≠ [] ∧ (COMMA ∉ js "b.example")
  ∧ (∀ c, head (js "b.example") = Some c → is_space c = false)
  ∧ (∀ c, last (js "b.example") = Some c → is_space c = false).
Proof.
  apply (parse_whitelist_entries (Some (js " a.example ,, b.example,"))).
  apply (bool_decide_unpack _). vm_compute. exact I.
Defined.

(** A well-formed list comes back from its comma-separated text. *)
Theorem parse_whitelist_join (entries : list jsstring)
    (Hwf : Forall (fun entry =>
                     entry ≠ [] ∧ (COMMA ∉ entry)
                     ∧ (∀ c, head entry = Some c → is_space c = false)
                     ∧ (∀ c, last entry = Some c → is_space c = false))
             entries) :
  parse_whitelist (Some (join COMMA entries)) = entries.
Proof.
  destruct entries as [|e es]; [reflexivity|].
  unfold parse_whitelist.
  assert (Hj : or_default (Some (join COMMA (e :: es))) [] = join COMMA (e :: es))
    by (now destruct (join COMMA (e :: es))).
  rewrite Hj, split_join_inverse;
    [|discriminate | eapply Forall_impl; [exact Hwf | now intros ? (_ & ? & _)]].
  clear Hj. induction Hwf as [|x l (Hne & _ & Hh & Hl) _ IH]; [reflexivity|].
  simpl. rewrite (trim_id x Hh Hl), IH.
  now destruct x.
Qed.

Lemma parse_whitelist_join_witness :
  parse_whitelist (Some (js "example.com,api.example.com"))
  = [js "example.com"; js "api.example.com"].
Proof.
  apply (parse_whitelist_join [js "example.com"; js "api.example.com"]).
  repeat constructor; try discriminate;
    try (apply (bool_decide_unpack _); vm_compute; exact I);
    intros c H; inversion H; reflexivity.
Defined.

Lemma filter_trim_blank (ws : list jsstring) :
  Forall (fun w => forallb is_space w = true) ws →
  List.filter nonempty (map trim ws) = [].
Proof.
  induction 1 as [|w ws Hw _ IH]; [reflexivity|].
  simpl. unfold trim at 1. now rewrite (trim_start_blank w Hw).
Qed.

(** A [WHITELIST_HOSTS] that is unset, empty, or made of commas and blanks
    only gives the empty list: every destination is allowed. *)
Theorem blank_whitelist_allows_all (env : environment) (hostname : jsstring)
    (Hblank : Forall (fun c => c = COMMA ∨ is_space c = true)
                (or_default (env_WHITELIST_HOSTS env) [])) :
  WHITELIST (load_config env) = []
  ∧ hostAllowed (load_config env) hostname = true.
Proof.
  assert (Hnil : WHITELIST (load_config env) = []).
  { simpl. unfold parse_whitelist. apply filter_trim_blank.
    set (s := or_default (env_WHITELIST_HOSTS env) []) in *.
    pose proof (split_pieces COMMA s) as HF.
    pose proof (join_split COMMA s) as Hj.
    apply Forall_forall. intros w Hw. apply forallb_forall. intros c Hc.
    apply list_elem_of_In in Hc.
    rewrite Forall_forall in HF. rewrite Forall_forall in Hblank.
    assert (Hs : c ∈ s) by (rewrite <- Hj; now apply (elem_of_join _ _ _ w)).
    destruct (Hblank c Hs) as [->|Hsp]; [|exact Hsp].
    now destruct (HF w Hw). }
  split; [exact Hnil|]. unfold hostAllowed. now rewrite Hnil.
Qed.

Lemma blank_whitelist_allows_all_witness :
  WHITELIST (load_config {| env_PORT := None; env_PROXY_USER := None;
                            env_PROXY_PASS := None;
                            env_WHITELIST_HOSTS := Some (js " , ,") |}) = []
  ∧ hostAllowed (load_config {| env_PORT := None; env_PROXY_USER := None;
                                env_PROXY_PASS := None;
                                env_WHITELIST_HOSTS := Some (js " , ,") |})
      (js "anything.example") = true.
Proof.
  apply blank_whitelist_allows_all.
  repeat constructor; first [now left | now right].
Defined.

(** ** The request handler: what goes upstream *)

Lemma in_trace_is_upstream (a : action) (tr : list action) :
  a ∈ tr → is_upstream a = true → existsb is_upstream tr = true.
Proof.
  intros Hin Ha. apply existsb_exists. exists a.
  split; [now apply list_elem_of_In | exact Ha].
Qed.

Lemma in_opened (a : action) (tr : list action) :
  a ∈ tr → opens_upstream a = true → a ∈ opened tr.
Proof.
  intros Hin Ha. apply list_elem_of_In, filter_In.
  split; [now apply list_elem_of_In | exact Ha].
Qed.

Lemma forwarded_headers_lookup (hs : headers) (k : jsstring) :
  forwarded_headers hs !! k =
    if bool_decide (k ∈ proxy_specific) then None else hs !! k.
Proof.
  change (forwarded_headers hs) with (delete_all proxy_specific hs).
  apply delete_all_lookup.
Qed.

(** Whatever request the proxy sends upstream, it is the one for the
    resolved target, with the client's method and the client's headers
    without proxy-authorization, proxy-connection and connection: the proxy
    credential never travels upstream. *)
Theorem forwarded_request_clean (cfg : ProxyConfig)
    (new_URL : jsstring → option URL) (req : IncomingMessage)
    (evs : list http_event) (tr : list action)
    (target : URL) (method : jsstring) (hs : headers)
    (Hex : http_exchange cfg new_URL req evs = Some tr)
    (Hin : http_request target method hs ∈ tr) :
  resolve_target new_URL req = Target target
  ∧ method = req_method req
  ∧ hs !! js "proxy-authorization" = None
  ∧ ∀ k, hs !! k =
         if bool_decide (k ∈ proxy_specific) then None
         else req_headers req !! k.
Proof.
  destruct (on_request_cases cfg new_URL req)
    as [(Hst & Hno & _)|(target' & _ & Ht & _ & Hreq)].
  - apply (http_exchange_rejected _ _ _ _ _ Hst) in Hex as [_ ->].
    now rewrite (in_trace_is_upstream _ _ Hin eq_refl) in Hno.
  - unfold http_exchange in Hex. rewrite Hreq in Hex.
    destruct (http_run Awaiting evs) as [[outs st]|] eqn:Hr; [|discriminate].
    inversion Hex; subst tr. simpl in Hin.
    apply elem_of_cons in Hin as [Heq|Hin].
    + inversion Heq; subst.
      split; [exact Ht|]. split; [reflexivity|].
      split; [now rewrite forwarded_headers_lookup|].
      apply forwarded_headers_lookup.
    + apply in_opened in Hin; [|reflexivity].
      rewrite (http_run_opens_nothing _ _ _ _ Hr) in Hin. inversion Hin.
Qed.

Lemma forwarded_request_clean_witness :
  ∃ hs, http_exchange default_cfg example_URL get_request [request_end]
        = Some [http_request {| href := js "http://api.example.com/data";
   protocol := js "http:";
                                hostname := js "api.example.com" |}
                  (js "GET") hs; upstream_end]
        ∧ hs !! js "proxy-authorization" = None
        ∧ hs !! js "host" = Some (HStr (js "api.example.com")).
Proof.
  eexists. split; [reflexivity|].
  destruct (forwarded_request_clean default_cfg example_URL get_request
              [request_end] _ _ _ _ eq_refl (list_elem_of_here _ _))
    as (_ & _ & Hauth & Hall).
  split; [exact Hauth|]. rewrite Hall. reflexivity.
Defined.





(** ** The request handler: what the client is answered *)

Lemma on_request_heads (cfg : ProxyConfig) (new_URL : jsstring → option URL)
    (req : IncomingMessage) :
  (snd (on_request cfg new_URL req) = Awaiting
   ∧ response_heads (fst (on_request cfg new_URL req)) = [])
  ∨ (snd (on_request cfg new_URL req) = HttpDone
     ∧ (response_heads (fst (on_request cfg new_URL req)) = []
        ∨ ∃ status hs,
            response_heads (fst (on_request cfg new_URL req)) = [(status, hs)]
            ∧ status ∈ [407; 400; 403]%Z)).
Proof.
  unfold on_request.
  destruct (checkBasicAuth cfg _); simpl negb; cbv iota.
  - destruct (resolve_target new_URL req) as [target| |].
    + destruct (hostAllowed cfg (hostname target)); simpl negb; cbv iota.
      * destruct (bool_decide (protocol target = js "http:")).
        -- left. split; reflexivity.
        -- right. split; [reflexivity|]. now left.
      * right. split; [reflexivity|]. right. do 2 eexists.
        split; [reflexivity|]. apply (bool_decide_unpack _). exact I.
    + right. split; [reflexivity|]. right. do 2 eexists.
      split; [reflexivity|]. apply (bool_decide_unpack _). exact I.
    + right. split; [reflexivity|]. right. do 2 eexists.
      split; [reflexivity|]. apply (bool_decide_unpack _). exact I.
  - right. split; [reflexivity|]. right. do 2 eexists.
    split; [reflexivity|]. apply (bool_decide_unpack _). exact I.
Qed.

Lemma http_run_streaming_heads (evs : list http_event) :
  ∀ st tr st', st ≠ Awaiting → http_run st evs = Some (tr, st') →
               response_heads tr = [].
Proof.
  induction evs as [|e evs IH]; intros st tr st' Hst.
  - simpl. intros H. now inversion H.
  - rewrite http_run_cons.
    destruct (http_step st e) as [[out st1]|] eqn:Hs; [|discriminate].
    destruct (http_run st1 evs) as [[outs st2]|] eqn:Hr; [|discriminate].
    intros H. inversion H; subst. rewrite response_heads_app.
    destruct st; [congruence| | |destruct e; discriminate Hs];
      destruct e; simpl in Hs; inversion Hs; subst; simpl;
      (eapply IH; [|exact Hr]; discriminate).
Qed.

Lemma http_run_awaiting_heads (evs : list http_event) :
  ∀ tr st', http_run Awaiting evs = Some (tr, st') →
    response_heads tr = []
    ∨ response_heads tr = [(502%Z, ∅)]
    ∨ ∃ statusCode hs,
        upstream_response statusCode hs ∈ evs
        ∧ response_heads tr = [(statusCode, delete_all hop_by_hop hs)].
Proof.
  induction evs as [|e evs IH]; intros tr st'.
  - simpl. intros H. inversion H. now left.
  - rewrite http_run_cons.
    destruct (http_step Awaiting e) as [[out st1]|] eqn:Hs; [|discriminate].
    destruct (http_run st1 evs) as [[outs st2]|] eqn:Hr; [|discriminate].
    intros H. inversion H; subst. rewrite response_heads_app.
    destruct e; simpl in Hs;
      try match type of Hs with
          | context [if ?b then _ else _] => destruct b
          end;
      inversion Hs; subst; simpl.
    + destruct (IH _ _ Hr) as [?|[?|(s & h & Hin & ?)]]; auto.
      right; right. exists s, h. split; [now apply list_elem_of_further | auto].
    + destruct (IH _ _ Hr) as [?|[?|(s & h & Hin & ?)]]; auto.
      right; right. exists s, h. split; [now apply list_elem_of_further | auto].
    + right; right. exists statusCode, hs. split; [apply list_elem_of_here|].
      now rewrite (http_run_streaming_heads evs Streaming _ _
                     ltac:(discriminate) Hr).
    + left. exact (http_run_streaming_heads evs HttpDone _ _
                     ltac:(discriminate) Hr).
    + right; left.
      now rewrite (http_run_streaming_heads evs HttpDone _ _
                     ltac:(discriminate) Hr).
Qed.

(** The client is sent at most one response head per request, and its
    status is 407, 400, 403 or 502, or else the status of a response the
    upstream really gave, with that response's headers minus the hop-by-hop
    names. *)
Theorem response_head_origin (cfg : ProxyConfig)
    (new_URL : jsstring → option URL) (req : IncomingMessage)
    (evs : list http_event) (tr : list action)
    (Hex : http_exchange cfg new_URL req evs = Some tr) :
  (length (response_heads tr) <= 1)%nat
  ∧ ∀ status hs, (status, hs) ∈ response_heads tr →
      status ∈ own_statuses
      ∨ ∃ hs', upstream_response status hs' ∈ evs
               ∧ hs = delete_all hop_by_hop hs'.
Proof.
  unfold http_exchange in Hex.
  destruct (on_request_heads cfg new_URL req)
    as [[Hst Hh]|[Hst Hh]];
    destruct (on_request cfg new_URL req) as [out st]; simpl in Hst, Hh; subst st.
  - destruct (http_run Awaiting evs) as [[outs st]|] eqn:Hr; [|discriminate].
    inversion Hex; subst tr. rewrite response_heads_app, Hh. simpl.
    destruct (http_run_awaiting_heads _ _ _ Hr) as [E|[E|(s & h & Hin & E)]];
      rewrite E; (split; [simpl; lia|]); intros status hs Hm.
    + inversion Hm.
    + apply list_elem_of_singleton in Hm. inversion Hm; subst.
      left. apply (bool_decide_unpack _). exact I.
    + apply list_elem_of_singleton in Hm. inversion Hm; subst.
      right. eauto.
  - destruct (http_run HttpDone evs) as [[outs st]|] eqn:Hr; [|discriminate].
    apply http_run_done in Hr as (_ & -> & _).
    inversion Hex; subst tr. rewrite app_nil_r.
    destruct Hh as [Hh|(s0 & h0 & Hh & Hs0)]; rewrite Hh;
      (split; [simpl; lia|]); intros status hs Hm; [inversion Hm|].
    apply list_elem_of_singleton in Hm. inversion Hm; subst. left.
    repeat (apply elem_of_cons in Hs0 as [->|Hs0];
            [apply (bool_decide_unpack _); exact I|]).
    inversion Hs0.
Qed.

Lemma response_head_origin_witness :
  ∃ tr, http_exchange default_cfg example_URL get_request
          [upstream_response 204 upstream_headers; response_end] = Some tr
        ∧ (length (response_heads tr) <= 1)%nat
        ∧ map fst (response_heads tr) = [204%Z].
Proof.
  eexists. split; [reflexivity|].
  destruct (response_head_origin default_cfg example_URL get_request
              [upstream_response 204 upstream_headers; response_end] _ eq_refl)
    as [Hlen _].
  split; [exact Hlen | reflexivity].
Defined.

Lemma http_exchange_answered (cfg : ProxyConfig)
    (new_URL : jsstring → option URL) (req : IncomingMessage)
    (out : list action) :
  on_request cfg new_URL req = (out, HttpDone) →
  http_exchange cfg new_URL req [] = Some out
  ∧ ∀ evs tr, http_exchange cfg new_URL req evs = Some tr → tr = out.
Proof.
  intros Hreq. split.
  - unfold http_exchange. rewrite Hreq. simpl. now rewrite app_nil_r.
  - intros evs tr Hex.
    apply http_exchange_rejected in Hex as [_ ->]; now rewrite Hreq.
Qed.

(** A relative target needs a Host header: without one, or with an empty
    one, an authenticated request is answered 400 before the URL parser and
    the allow-list are consulted; and a target the URL parser rejects is
    answered 400 as well.  Nothing else is done for such a request. *)
Theorem bad_request_answers (cfg : ProxyConfig)
    (new_URL : jsstring → option URL) (req : IncomingMessage)
    (Hauth : authenticated cfg req = true) :
  (test_absolute (req_url req) = false →
   get_header (req_headers req) (js "host") = None
   ∨ get_header (req_headers req) (js "host") = Some [] →
   http_exchange cfg new_URL req [] =
     Some [res_writeHead 400 ∅;
           res_end (js "Bad Request: missing Host header")]
   ∧ ∀ evs tr, http_exchange cfg new_URL req evs = Some tr →
               tr = [res_writeHead 400 ∅;
                     res_end (js "Bad Request: missing Host header")])
  ∧ (resolve_target new_URL req = InvalidURL →
     http_exchange cfg new_URL req [] =
       Some [res_writeHead 400 ∅; res_end (js "Bad Request: invalid URL")]
     ∧ ∀ evs tr, http_exchange cfg new_URL req evs = Some tr →
                 tr = [res_writeHead 400 ∅;
                       res_end (js "Bad Request: invalid URL")]).
Proof.
  split.
  - intros Hrel Hhost. apply http_exchange_answered.
    unfold on_request. fold (authenticated cfg req). rewrite Hauth.
    unfold resolve_target. rewrite Hrel.
    now destruct Hhost as [-> | ->].
  - intros Hinv. apply http_exchange_answered.
    unfold on_request. fold (authenticated cfg req). now rewrite Hauth, Hinv.
Qed.

Lemma bad_request_answers_witness :
  http_exchange default_cfg example_URL relative_request []
  = Some [res_writeHead 400 ∅;
          res_end (js "Bad Request: missing Host header")].
Proof.
  assert (Ha : authenticated default_cfg relative_request = true)
    by (vm_compute; reflexivity).
  destruct (bad_request_answers default_cfg example_URL relative_request Ha)
    as (Hmissing & _).
  apply Hmissing; [reflexivity | left; vm_compute; reflexivity].
Defined.

(** ** The connect handler *)

Lemma relaying_bytes (evs : list tunnel_event) :
  ∀ c tr st, tunnel_run (Relaying c) evs = Some (tr, st) →
    to_upstream tr = from_client evs
    ∧ to_client tr =
        from_server evs
        ++ (if existsb is_serverSocket_error evs then tunnel_502 else []).
Proof.
  induction evs as [|e evs IH]; intros c tr st.
  - simpl. intros H. inversion H. now split.
  - rewrite tunnel_run_cons.
    destruct (tunnel_step (Relaying c) e) as [[out st1]|] eqn:Hs; [|discriminate].
    destruct (tunnel_run st1 evs) as [[outs st2]|] eqn:Hr; [|discriminate].
    intros H. inversion H; subst. rewrite to_upstream_app, to_client_app.
    destruct e, c; simpl in Hs; inversion Hs; subst;
      try (apply tunnel_run_closed in Hr as (-> & -> & _); simpl;
           now rewrite ?app_nil_r);
      destruct (IH _ _ _ Hr) as [Hu Hc]; simpl; rewrite Hu, Hc;
      now rewrite <- ?app_assoc.
Qed.

(** Through a tunnel the upstream receives the buffered head and then what
    the client sends, nothing else, whichever side ends first; the client
    receives the 200 line and then what the upstream sends - and, when the
    upstream socket fails, the 502 line after all that. *)
Theorem tunnel_bytes (cfg : ProxyConfig) (req : IncomingMessage) (head : bytes)
    (evs : list tunnel_event) (tr : list action)
    (Hex : tunnel_exchange cfg req head (connected :: evs) = Some tr) :
  to_upstream tr = head ++ from_client evs
  ∧ to_client tr =
      tunnel_200 ++ from_server evs
      ++ (if existsb is_serverSocket_error evs then tunnel_502 else []).
Proof.
  destruct (on_connect_cases cfg req head)
    as [(Hst & _)|(p & _ & _ & _ & Hcon)].
  - now apply (tunnel_exchange_rejected _ _ _ _ _ Hst) in Hex as [? _].
  - unfold tunnel_exchange in Hex. rewrite Hcon in Hex.
    rewrite tunnel_run_cons in Hex. simpl tunnel_step in Hex.
    cbv beta iota in Hex.
    destruct (tunnel_run (Relaying true) evs) as [[outs st]|] eqn:Hr;
      [|discriminate].
    destruct (relaying_bytes _ _ _ _ Hr) as [Hu Hc].
    inversion Hex; subst tr. split.
    + simpl. rewrite to_upstream_app, Hu. destruct head; [reflexivity|].
      simpl. now rewrite app_nil_r.
    + simpl. rewrite to_client_app, Hc. now destruct head.
Qed.

Lemma tunnel_bytes_witness :
  ∃ tr, tunnel_exchange default_cfg connect_request [22]
          (connected :: [client_data [1]; client_end; server_data [2];
                         serverSocket_error]) = Some tr
        ∧ to_upstream tr = [22] ++ [1]
        ∧ to_client tr = tunnel_200 ++ [2] ++ tunnel_502.
Proof.
  eexists. split; [reflexivity|].
  apply (tunnel_bytes default_cfg connect_request [22]
           [client_data [1]; client_end; server_data [2]; serverSocket_error]).
  reflexivity.
Defined.

Lemma tunnel_target_pieces (host seg : jsstring) :
  COLON ∉ host → COLON ∉ seg →
  tunnel_host (host ++ COLON :: seg) = host
  ∧ tunnel_portStr (host ++ COLON :: seg) = Some seg.
Proof.
  intros Hh Hs. unfold tunnel_host, tunnel_portStr.
  now rewrite (split_app_sep _ _ _ Hh), (split_no_sep _ _ Hs).
Qed.

Lemma tunnel_exchange_answered (cfg : ProxyConfig) (req : IncomingMessage)
    (head : bytes) (out : list action) :
  on_connect cfg req head = (out, Closed) →
  tunnel_exchange cfg req head [] = Some out
  ∧ ∀ evs tr, tunnel_exchange cfg req head evs = Some tr → tr = out.
Proof.
  intros Hcon. split.
  - unfold tunnel_exchange. rewrite Hcon. simpl. now rewrite app_nil_r.
  - intros evs tr Hex.
    apply tunnel_exchange_rejected in Hex as [_ ->]; now rewrite Hcon.
Qed.

(** A decimal port above 65535 is passed to [net.connect] as it is, which
    throws: for an authenticated request to an allowed host nothing is
    connected and nothing is written to the client, the handler ends in an
    exception nobody catches. *)
Theorem port_out_of_range (cfg : ProxyConfig) (req : IncomingMessage)
    (head : bytes) (host seg : jsstring)
    (Hurl : req_url req = host ++ COLON :: seg)
    (Hh : COLON ∉ host) (Hs : COLON ∉ seg)
    (Hauth : authenticated cfg req = true)
    (Hallowed : hostAllowed cfg host = true)
    (Hnum : numeric seg = true)
    (Hbig : 65535 < decimal_value seg) :
  tunnel_exchange cfg req head [] = Some [uncaught "ERR_SOCKET_BAD_PORT"]
  ∧ ∀ evs tr, tunnel_exchange cfg req head evs = Some tr →
              tr = [uncaught "ERR_SOCKET_BAD_PORT"].
Proof.
  destruct (tunnel_target_pieces host seg Hh Hs) as [Hhost Hseg].
  apply tunnel_exchange_answered.
  unfold on_connect. fold (authenticated cfg req).
  rewrite Hauth, Hurl, Hhost, Hallowed. simpl negb. cbv iota.
  unfold tunnel_port. rewrite Hseg, (parseInt10_numeric _ Hnum).
  destruct (N.leb_spec (decimal_value seg) (2 ^ 53)) as [_|_];
    [|reflexivity].
  simpl truthy.
  destruct (Z.eqb_spec (Z.of_N (decimal_value seg)) 0) as [?|_]; [lia|].
  simpl. destruct (Z.leb_spec (Z.of_N (decimal_value seg)) 65535) as [?|_];
    [lia|].
  now rewrite andb_false_r.
Qed.

Lemma port_out_of_range_witness :
  tunnel_exchange default_cfg
    {| req_method := js "CONNECT"; req_url := js "api.example.com:70000";
       req_headers := good_headers |} [] []
  = Some [uncaught "ERR_SOCKET_BAD_PORT"].
Proof.
  apply (port_out_of_range default_cfg
           {| req_method := js "CONNECT"; req_url := js "api.example.com:70000";
              req_headers := good_headers |} []
           (js "api.example.com") (js "70000")).
  - reflexivity.
  - apply (bool_decide_unpack _). vm_compute. exact I.
  - apply (bool_decide_unpack _). vm_compute. exact I.
  - vm_compute. reflexivity.
  - reflexivity.
  - reflexivity.
  - vm_compute. reflexivity.
Defined.

(** An authenticated CONNECT to [host:port], the host on the list (or the
    list empty) and the port a decimal number from 1 to 65535, opens exactly
    the connection to that port of that host; without a port it is port
    443. *)
Theorem connect_opens (cfg : ProxyConfig) (req : IncomingMessage)
    (head : bytes) (host seg : jsstring)
    (Hh : COLON ∉ host) (Hs : COLON ∉ seg)
    (Hauth : authenticated cfg req = true)
    (Hlisted : WHITELIST cfg = [] ∨ host ∈ WHITELIST cfg) :
  (req_url req = host →
   on_connect cfg req head = ([net_connect 443 host], Connecting head))
  ∧ (req_url req = host ++ COLON :: seg →
     numeric seg = true → 0 < decimal_value seg → decimal_value seg <= 65535 →
     on_connect cfg req head =
       ([net_connect (Z.of_N (decimal_value seg)) host], Connecting head)).
Proof.
  assert (Hok : hostAllowed cfg host = true).
  { apply hostAllowed_accepts. destruct Hlisted as [?|Hin]; [now left|].
    right. exists host. repeat split; auto. }
  destruct (tunnel_target_pieces host seg Hh Hs) as [Hhost Hseg].
  split.
  - intros Hurl.
    assert (Hth : tunnel_host (req_url req) = host)
      by (rewrite Hurl; unfold tunnel_host; now rewrite (split_no_sep _ _ Hh)).
    assert (Hp : legal_port (tunnel_port (req_url req)) = Some 443%Z).
    { rewrite Hurl. unfold tunnel_port, tunnel_portStr.
      now rewrite (split_no_sep _ _ Hh). }
    rewrite (on_connect_admitted cfg req head _ Hauth) with (2 := Hp);
      now rewrite Hth.
  - intros Hurl Hnum Hpos Hle.
    assert (Hth : tunnel_host (req_url req) = host) by now rewrite Hurl.
    assert (Hp : legal_port (tunnel_port (req_url req))
                 = Some (Z.of_N (decimal_value seg))).
    { rewrite Hurl. unfold tunnel_port.
      rewrite Hseg, (parseInt10_numeric _ Hnum).
      destruct (N.leb_spec (decimal_value seg) (2 ^ 53)) as [_|Hgt];
        [|assert (2 ^ 53 = 9007199254740992) by reflexivity; lia].
      simpl truthy.
      destruct (Z.eqb_spec (Z.of_N (decimal_value seg)) 0) as [?|_]; [lia|].
      simpl.
      destruct (Z.leb_spec 0 (Z.of_N (decimal_value seg))) as [_|?]; [|lia].
      destruct (Z.leb_spec (Z.of_N (decimal_value seg)) 65535) as [_|?];
        [reflexivity | lia]. }
    rewrite (on_connect_admitted cfg req head _ Hauth) with (2 := Hp);
      now rewrite Hth.
Qed.

Lemma connect_opens_witness :
  on_connect v6_cfg connect_request [] =
    ([net_connect 8443 (js "api.example.com")], Connecting []).
Proof.
  destruct (connect_opens v6_cfg connect_request [] (js "api.example.com")
              (js "8443")) as [_ Hport].
  - apply (bool_decide_unpack _). vm_compute. exact I.
  - apply (bool_decide_unpack _). vm_compute. exact I.
  - vm_compute. reflexivity.
  - right. apply (bool_decide_unpack _). vm_compute. exact I.
  - apply Hport; [reflexivity | reflexivity | reflexivity | discriminate].
Defined.

(** Of a CONNECT target only what stands before the second colon is used:
    [host:port:rest] is handled like [host:port], so an IPv6 literal in
    brackets is cut at its first colon. *)
Theorem connect_target_cut (cfg : ProxyConfig) (req req' : IncomingMessage)
    (head : bytes) (host seg rest : jsstring)
    (Hh : COLON ∉ host) (Hs : COLON ∉ seg)
    (Hheaders : req_headers req = req_headers req')
    (Hurl : req_url req = host ++ COLON :: seg ++ COLON :: rest)
    (Hurl' : req_url req' = host ++ COLON :: seg) :
  tunnel_host (req_url req) = host
  ∧ tunnel_portStr (req_url req) = Some seg
  ∧ on_connect cfg req head = on_connect cfg req' head.
Proof.
  destruct (tunnel_target_pieces host seg Hh Hs) as [Hhost Hseg].
  assert (Hhost' : tunnel_host (req_url req) = host)
    by (rewrite Hurl; unfold tunnel_host; now rewrite (split_app_sep _ _ _ Hh)).
  assert (Hseg' : tunnel_portStr (req_url req) = Some seg).
  { rewrite Hurl. unfold tunnel_portStr.
    now rewrite (split_app_sep _ _ _ Hh), (split_app_sep _ _ _ Hs). }
  repeat split; [exact Hhost' | exact Hseg' |].
  unfold on_connect, tunnel_port.
  now rewrite Hheaders, Hhost', Hseg', Hurl', Hhost, Hseg.
Qed.

Lemma connect_target_cut_witness :
  tunnel_host (js "[::1]:443") = js "["
  ∧ tunnel_portStr (js "[::1]:443") = Some []
  ∧ on_connect default_cfg
      {| req_method := js "CONNECT"; req_url := js "[::1]:443";
         req_headers := good_headers |} []
    = on_connect default_cfg
        {| req_method := js "CONNECT"; req_url := js "[:";
           req_headers := good_headers |} [].
Proof.
  apply (connect_target_cut default_cfg
           {| req_method := js "CONNECT"; req_url := js "[::1]:443";
              req_headers := good_headers |}
           {| req_method := js "CONNECT"; req_url := js "[:";
              req_headers := good_headers |} [] (js "[") [] (js "1]:443")).
  - apply (bool_decide_unpack _). vm_compute. exact I.
  - apply (bool_decide_unpack _). vm_compute. exact I.
  - reflexivity.
  - reflexivity.
  - reflexivity.
Defined.

(** ** Destinations off the list *)

(** With a list, an authenticated request for a host that is not on it is
    answered 403 and nothing else is done: in the HTTP relay for the host
    name of the resolved target, in the tunnel relay for the host of the
    target, whatever the port. *)
Theorem forbidden_answers (cfg : ProxyConfig)
    (new_URL : jsstring → option URL) (req : IncomingMessage) (head : bytes)
    (host : jsstring)
    (Hauth : authenticated cfg req = true)
    (Hlist : WHITELIST cfg ≠ [])
    (Hh : COLON ∉ host)
    (Hoff : host ∉ WHITELIST cfg) :
  (∀ target, resolve_target new_URL req = Target target →
             hostname target = host →
     ∀ evs tr, http_exchange cfg new_URL req evs = Some tr →
       tr = [res_writeHead 403 ∅;
             res_end (js "Forbidden: host not allowed by proxy whitelist")])
  ∧ (∀ seg, req_url req = host ∨ req_url req = host ++ COLON :: seg →
     ∀ evs tr, tunnel_exchange cfg req head evs = Some tr →
       tr = [clientSocket_write tunnel_403; clientSocket_destroy]).
Proof.
  split.
  - intros target Ht Hname.
    apply http_exchange_answered.
    unfold on_request. fold (authenticated cfg req). rewrite Hauth, Ht, Hname.
    destruct (hostAllowed_exact cfg host [] Hlist Hh) as [-> _].
    now rewrite bool_decide_eq_false_2.
  - intros seg Hurl.
    apply tunnel_exchange_answered.
    unfold on_connect. fold (authenticated cfg req). rewrite Hauth.
    assert (Hth : tunnel_host (req_url req) = host).
    { unfold tunnel_host. destruct Hurl as [-> | ->].
      - now rewrite (split_no_sep _ _ Hh).
      - now rewrite (split_app_sep _ _ _ Hh). }
    assert (Hno : hostAllowed cfg (tunnel_host (req_url req)) = false).
    { rewrite Hth. destruct (hostAllowed_exact cfg host [] Hlist Hh) as [-> _].
      now rewrite bool_decide_eq_false_2. }
    now rewrite Hno.
Qed.

Lemma forbidden_answers_witness :
  http_exchange v6_cfg example_URL
    {| req_method := js "GET"; req_url := js "http://evil.com/";
       req_headers := good_headers |} []
  = Some [res_writeHead 403 ∅;
          res_end (js "Forbidden: host not allowed by proxy whitelist")].
Proof.
  destruct (forbidden_answers v6_cfg example_URL
              {| req_method := js "GET"; req_url := js "http://evil.com/";
                 req_headers := good_headers |} [] (js "evil.com"))
    as [Hhttp _].
  - vm_compute. reflexivity.
  - discriminate.
  - apply (bool_decide_unpack _). vm_compute. exact I.
  - apply (bool_decide_unpack _). vm_compute. exact I.
  - rewrite <- (Hhttp {| href := js "http://evil.com/"; protocol := js "http:";
                         hostname := js "evil.com" |} eq_refl eq_refl
                  [] _ eq_refl).
    reflexivity.
Defined.

(** ** Credentials that cannot be configured *)

Lemma or_default_nonempty (v : option jsstring) (d : jsstring) :
  d ≠ [] → or_default v d ≠ [].
Proof. intros Hd. destruct v as [[|c s]|]; simpl; congruence. Qed.

(** An empty user name or password cannot be configured: an empty
    PROXY_USER or PROXY_PASS is replaced by the default.  So a credential
    with an empty password ([user:] or [user::...]) is refused however the
    environment is set. *)
Theorem empty_password_refused (env : environment) (h m1 user tail : jsstring)
    (Hm : match_basic h = Some m1)
    (Hu : COLON ∉ user)
    (Hd : decoded_credential m1 = user ++ COLON :: tail)
    (Htail : tail = [] ∨ ∃ t, tail = COLON :: t) :
  PROXY_USER (load_config env) ≠ []
  ∧ PROXY_PASS (load_config env) ≠ []
  ∧ checkBasicAuth (load_config env) (Some h) = false.
Proof.
  assert (Hp : PROXY_PASS (load_config env) ≠ [])
    by (apply or_default_nonempty; discriminate).
  split; [apply or_default_nonempty; discriminate|]. split; [exact Hp|].
  rewrite (checkBasicAuth_match _ _ _ Hm), Hd, (split_app_sep _ _ _ Hu).
  assert (Hpiece : ∃ more, split COLON tail = [] :: more).
  { destruct Htail as [->|[t ->]]; [now exists []|].
    exists (split COLON t). now rewrite split_cons_eq, N.eqb_refl. }
  destruct Hpiece as [more ->]. simpl lookup. simpl strict_eq.
  rewrite (bool_decide_eq_false_2 ([] = PROXY_PASS (load_config env)))
    by congruence.
  apply andb_false_r.
Qed.

Lemma empty_password_refused_witness :
  decoded_credential (js "cHJveHl1c2VyOg==") = js "proxyuser:"
  ∧ checkBasicAuth
      (load_config {| env_PORT := None; env_PROXY_USER := Some (js "proxyuser");
                      env_PROXY_PASS := Some []; env_WHITELIST_HOSTS := None |})
      (Some (js "Basic cHJveHl1c2VyOg==")) = false.
Proof.
  split; [reflexivity|].
  apply (empty_password_refused
           {| env_PORT := None; env_PROXY_USER := Some (js "proxyuser");
              env_PROXY_PASS := Some []; env_WHITELIST_HOSTS := None |}
           (js "Basic cHJveHl1c2VyOg==") (js "cHJveHl1c2VyOg==")
           (js "proxyuser") []).
  - reflexivity.
  - apply (bool_decide_unpack _). vm_compute. exact I.
  - reflexivity.
  - now left.
Defined.
